(** * Oma Helen API client: a shallow embedding of [helenservice/api_client.py]

    The client authenticates against the Oma Helen service, builds the time
    windows of its measurement and spot-price requests, memoises the responses
    with [cachetools.TTLCache], and derives the "impact of usage" figure from
    an hourly price series and an hourly consumption series.

    Python values are embedded as follows.
    - the impact calculation is given three times: on rationals [Q], which
      is the formula in exact arithmetic; on binary64 numbers; and on
      Python's numbers, an [int] of any size or a [float], with the
      conversions, the rounding and the [OverflowError] of mixed arithmetic,
      which is the calculation as Python runs it;
    - exceptions are the constructors of [exn]; a computation that may raise
      returns a [result];
    - [dict]s decoded from JSON are [gmap string json]; [list]s are lists;
    - [datetime.date] is a record of year, month and day, with the
      proleptic-Gregorian ordinal arithmetic of the [datetime] module;
    - the wall clock, the HTTP transport and the cache stores live in an
      explicit [world] that every fetch operation threads through. *)

From Stdlib Require Import ZArith QArith Qabs List String Ascii Lia Bool Floats.
From stdpp Require Import base option list strings gmap pretty.

Local Open Scope Z_scope.

(** ** Python exceptions and results *)

Module Py.

Inductive exn : Type :=
| ZeroDivisionError
| StopIteration
| KeyError (key : string)
| IndexError
| TypeError
| ValueError
| OverflowError
| AttributeError
| RequestException.

Inductive result (A : Type) : Type :=
| Ok (a : A)
| Raise (e : exn).

Arguments Ok {A} a.
Arguments Raise {A} e.

Definition bind {A B : Type} (m : result A) (k : A -> result B) : result B :=
  match m with
  | Ok a => k a
  | Raise e => Raise e
  end.

#[export] Instance result_ret : MRet result := fun A a => Ok a.
#[export] Instance result_bind : MBind result := fun A B k m => bind m k.

(** [l[i]] on a list, for a non-negative index. *)
Definition getitem {A : Type} (l : list A) (i : nat) : result A :=
  match l !! i with
  | Some a => Ok a
  | None => Raise IndexError
  end.

(** [[f(i) for i in range(n)]] where [f] may raise: the first exception
    aborts the loop. *)
Fixpoint for_range {A : Type} (f : nat -> result A) (start n : nat) : result (list A) :=
  match n with
  | O => Ok []
  | S n' => a ← f start; rest ← for_range f (S start) n'; Ok (a :: rest)
  end.

(** The builtin [sum] in exact arithmetic: a left fold starting from 0. *)
Definition sum (l : list Q) : Q := fold_left Qplus l (0%Q).

(** True division [a / b] in exact arithmetic: raises [ZeroDivisionError]
    when [b] is zero. (Python's own division, which rounds and can overflow,
    is [Number.truediv] below.) *)
Definition truediv (a b : Q) : result Q :=
  if Qeq_bool b 0 then Raise ZeroDivisionError else Ok (a / b)%Q.

End Py.

Import Py.

(** ** Response shapes *)

(** Modelled from the spec: [helenservice/api_response.py] is not among the
    sources. The spec's data model says a measurement series is an ordered
    sequence of numeric values, that a measurement response holds interval
    groups of which the electricity ones carry a measurement list, and that a
    spot-price response holds one interval with a measurement list. Only the
    attributes the client reads are kept. *)
Record Measurement : Type := { value : Q }.
Record Interval : Type := { measurements : list Measurement }.
Record Intervals : Type := { electricity : list Interval }.
Record MeasurementResponse : Type := { intervals : Intervals }.
Record SpotPricesResponse : Type := { interval : Interval }.

(** ** The impact calculator (api_client.py, lines 55-66) *)

(** The statements of lines 55-66 in exact arithmetic: what they compute
    when nothing is rounded and nothing overflows. *)
Module Impact.

(** Lines 55-58: [length = min(len(prices), len(measurements))] and the loop
    that appends [abs(prices[i].value) * abs(measurements[i].value)]. *)
Definition hourly_weighted_consumption_prices
    (hourly_prices hourly_measurements : list Measurement) : result (list Q) :=
  let length := Nat.min (List.length hourly_prices) (List.length hourly_measurements) in
  for_range
    (fun i =>
       p ← getitem hourly_prices i;
       m ← getitem hourly_measurements i;
       Ok (Qabs (value p) * Qabs (value m))%Q)
    0 length.

(** Line 59: the average of the absolute prices over the whole price series. *)
Definition monthly_average_price (hourly_prices : list Measurement) : result Q :=
  truediv (sum (map (fun price => Qabs (value price)) hourly_prices))
          (inject_Z (Z.of_nat (List.length hourly_prices))).

(** Line 60: the absolute consumption summed over the whole measurement series. *)
Definition total_consumption (hourly_measurements : list Measurement) : Q :=
  sum (map (fun measurement => Qabs (value measurement)) hourly_measurements).

(** Lines 55-66, in the order the statements run. *)
Definition calculate_impact
    (hourly_prices hourly_measurements : list Measurement) : result Q :=
  weighted ← hourly_weighted_consumption_prices hourly_prices hourly_measurements;
  average ← monthly_average_price hourly_prices;
  let total := total_consumption hourly_measurements in
  let total_hourly_weighted_consumption_prices := sum weighted in
  let total_consumption_average_price := (average * total)%Q in
  truediv (total_hourly_weighted_consumption_prices - total_consumption_average_price) total.

(** A series given by its values. *)
Definition series (values : list Q) : list Measurement :=
  map (fun v => {| value := v |}) values.

End Impact.

Import Impact.

(** ** The impact calculator on binary64 numbers *)

Module Binary64.

(** Lines 55-66 once more, every number being an IEEE 754 binary64 value as
    a Python [float] is (an [int] decoded from JSON converts to it exactly
    when below 2^53). [sum] is taken as a plain left fold, which is what
    CPython computes whenever the partial sums are exact, as they are for
    series of small integers. *)
Definition sum (l : list float) : float := fold_left PrimFloat.add l 0%float.

Definition truediv (a b : float) : result float :=
  if PrimFloat.eqb b 0 then Raise ZeroDivisionError else Ok (a / b)%float.

Definition hourly_weighted_consumption_prices (hourly_prices hourly_measurements : list float)
    : result (list float) :=
  let length := Nat.min (List.length hourly_prices) (List.length hourly_measurements) in
  for_range
    (fun i =>
       p ← getitem hourly_prices i;
       m ← getitem hourly_measurements i;
       Ok (PrimFloat.abs p * PrimFloat.abs m)%float)
    0 length.

Definition calculate_impact (hourly_prices hourly_measurements : list float)
    : result float :=
  weighted ← hourly_weighted_consumption_prices hourly_prices hourly_measurements;
  monthly_average_price ←
    truediv (sum (map PrimFloat.abs hourly_prices))
            (PrimFloat.of_uint63 (Uint63.of_Z (Z.of_nat (List.length hourly_prices))));
  let total_consumption := sum (map PrimFloat.abs hourly_measurements) in
  let total_hourly_weighted_consumption_prices := sum weighted in
  let total_consumption_average_price :=
    (monthly_average_price * total_consumption)%float in
  truediv (total_hourly_weighted_consumption_prices - total_consumption_average_price)
          total_consumption.

End Binary64.

(** ** The impact calculator on Python numbers *)

Module Number.

(** A number as [json] decodes it and as arithmetic returns it: an [int] of
    any size or a [float], a binary64 value. *)
Inductive num : Type :=
| Int (z : Z)
| Float (f : float).

(** The least magnitude that rounds to no finite [float]: half-way between
    the largest one, 2^1024 - 2^971, and 2^1024. *)
Definition FLOAT_LIMIT : Z := 2 ^ 1024 - 2 ^ 970.

(** The conversion of an [int] to a [float] that mixed arithmetic applies
    ([PyLong_AsDouble]): rounded to nearest, ties to even; [OverflowError]
    when the [int] is too large. *)
Definition to_float (z : Z) : result float :=
  if Z.abs z <? FLOAT_LIMIT
  then Ok (SF2Prim (binary_normalize prec emax z 0 false))
  else Raise OverflowError.

Definition as_float (n : num) : result float :=
  match n with
  | Int z => to_float z
  | Float f => Ok f
  end.

(** [abs(n)]. *)
Definition abs (n : num) : num :=
  match n with
  | Int z => Int (Z.abs z)
  | Float f => Float (PrimFloat.abs f)
  end.

(** [a + b], [a - b] and [a * b]: exact on two [int]s; otherwise both
    operands are converted, the left one first, and the operation is the
    [float] one, which rounds, overflows to an infinity and raises nothing. *)
Definition arith (on_ints : Z -> Z -> Z) (on_floats : float -> float -> float)
    (a b : num) : result num :=
  match a, b with
  | Int x, Int y => Ok (Int (on_ints x y))
  | _, _ => x ← as_float a; y ← as_float b; Ok (Float (on_floats x y))
  end.

Definition add : num -> num -> result num := arith Z.add PrimFloat.add.
Definition sub : num -> num -> result num := arith Z.sub PrimFloat.sub.
Definition mul : num -> num -> result num := arith Z.mul PrimFloat.mul.

(** An [int] as an unrounded binary number. *)
Definition int_spec (z : Z) : spec_float :=
  match z with
  | Z0 => S754_zero false
  | Zpos p => S754_finite false p 0
  | Zneg p => S754_finite true p 0
  end.

(** [a / b]. On two [int]s: [ZeroDivisionError] when [b] is zero,
    [OverflowError] when the quotient rounds to no finite [float], otherwise
    the quotient rounded once. Otherwise both operands are converted, then
    [ZeroDivisionError] when the divisor is zero, of either sign. *)
Definition truediv (a b : num) : result num :=
  match a, b with
  | Int x, Int y =>
      if y =? 0 then Raise ZeroDivisionError
      else if FLOAT_LIMIT * Z.abs y <=? Z.abs x then Raise OverflowError
      else Ok (Float (SF2Prim (SFdiv prec emax (int_spec x) (int_spec y))))
  | _, _ =>
      x ← as_float a;
      y ← as_float b;
      if PrimFloat.eqb y 0 then Raise ZeroDivisionError
      else Ok (Float (PrimFloat.div x y))
  end.

(** The builtin [sum]: the items added one by one, from the left, to the
    [int] 0. (From version 3.12 CPython carries a correction term through a
    sum of [float]s, which can change the last bits of the total; it raises
    in the same cases.) *)
Fixpoint sum_from (total : num) (items : list num) : result num :=
  match items with
  | [] => Ok total
  | item :: rest => total ← add total item; sum_from total rest
  end.

Definition sum (items : list num) : result num := sum_from (Int 0) items.

(** Lines 55-66 on the [value]s of the two series, in the order the
    statements run. *)
Definition calculate_impact (hourly_prices hourly_measurements : list num)
    : result num :=
  let length := Nat.min (List.length hourly_prices) (List.length hourly_measurements) in
  hourly_weighted_consumption_prices ←
    for_range
      (fun i =>
         p ← getitem hourly_prices i;
         m ← getitem hourly_measurements i;
         mul (abs p) (abs m))
      0 length;
  total_price ← sum (map abs hourly_prices);
  monthly_average_price ←
    truediv total_price (Int (Z.of_nat (List.length hourly_prices)));
  total_consumption ← sum (map abs hourly_measurements);
  total_hourly_weighted_consumption_prices ← sum hourly_weighted_consumption_prices;
  total_consumption_average_price ← mul monthly_average_price total_consumption;
  difference ← sub total_hourly_weighted_consumption_prices total_consumption_average_price;
  truediv difference total_consumption.



(** A number no conversion refuses: the [int] 0 or a [float]. *)
Definition plain (n : num) : Prop := n = Int 0 \/ exists f, n = Float f.


(** A [float], or an [int] of magnitude at most [bound]. *)
Definition within (bound : Z) (n : num) : Prop :=
  match n with
  | Int z => Z.abs z <= bound
  | Float _ => True
  end.

End Number.

(** ** Dates: [datetime.date], [calendar.monthrange] and [dateutil.relativedelta] *)

Module Calendar.

Record date : Type := { year : Z; month : Z; day : Z }.

Definition MINYEAR : Z := 1.
Definition MAXYEAR : Z := 9999.

(** [calendar.isleap]. *)
Definition isleap (y : Z) : bool :=
  (y mod 4 =? 0) && (negb (y mod 100 =? 0) || (y mod 400 =? 0)).

(** The table [_DAYS_IN_MONTH] of the [datetime] module ([calendar.mdays]). *)
Definition mdays (m : Z) : Z :=
  match m with
  | 1 => 31 | 2 => 28 | 3 => 31 | 4 => 30 | 5 => 31 | 6 => 30
  | 7 => 31 | 8 => 31 | 9 => 30 | 10 => 31 | 11 => 30 | 12 => 31
  | _ => 0
  end.

Definition days_in_month (y m : Z) : Z :=
  mdays m + (if (m =? 2) && isleap y then 1 else 0).

(** [calendar.monthrange(year, month)[-1]]: the number of days of the month;
    [IllegalMonthError] is a [ValueError]. *)
Definition monthrange_ndays (y m : Z) : result Z :=
  if (1 <=? m) && (m <=? 12) then Ok (days_in_month y m) else Raise ValueError.

(** The check every [date] constructor runs. *)
Definition valid_ymd (y m d : Z) : bool :=
  (MINYEAR <=? y) && (y <=? MAXYEAR) && (1 <=? m) && (m <=? 12)
  && (1 <=? d) && (d <=? days_in_month y m).

Definition valid (dt : date) : bool := valid_ymd (year dt) (month dt) (day dt).

Definition make_date (y m d : Z) : result date :=
  if valid_ymd y m d then Ok {| year := y; month := m; day := d |} else Raise ValueError.

(** A keyword argument of [replace] is read as a C [int]: an [int] outside
    its range is an [OverflowError], whatever the field. *)
Definition C_INT_MIN : Z := - 2 ^ 31.
Definition C_INT_MAX : Z := 2 ^ 31 - 1.

Definition as_c_int (z : Z) : result Z :=
  if (C_INT_MIN <=? z) && (z <=? C_INT_MAX) then Ok z else Raise OverflowError.

Definition keyword (given : option Z) (field : Z) : result Z :=
  match given with
  | Some z => as_c_int z
  | None => Ok field
  end.

(** [dt.replace(year=..., month=..., day=...)]: the keywords given are read,
    absent ones keep the field, and the date is built anew. *)
Definition replace (dt : date) (y m d : option Z) : result date :=
  y ← keyword y (year dt);
  m ← keyword m (month dt);
  d ← keyword d (day dt);
  make_date y m d.

(** [_days_before_year], [_days_before_month], [_ymd2ord]: the proleptic
    Gregorian ordinal, 0001-01-01 being day 1. *)
Definition days_before_year (y : Z) : Z :=
  let y' := y - 1 in y' * 365 + y' / 4 - y' / 100 + y' / 400.

Definition DAYS_BEFORE_MONTH (m : Z) : Z :=
  match m with
  | 1 => 0 | 2 => 31 | 3 => 59 | 4 => 90 | 5 => 120 | 6 => 151
  | 7 => 181 | 8 => 212 | 9 => 243 | 10 => 273 | 11 => 304 | 12 => 334
  | _ => 0
  end.

Definition days_before_month (y m : Z) : Z :=
  DAYS_BEFORE_MONTH m + (if (2 <? m) && isleap y then 1 else 0).

Definition ymd2ord (y m d : Z) : Z :=
  days_before_year y + days_before_month y m + d.

Definition toordinal (dt : date) : Z := ymd2ord (year dt) (month dt) (day dt).

Definition DI400Y : Z := 146097.
Definition DI100Y : Z := 36524.
Definition DI4Y : Z := 1461.

(** The last lines of [_ord2ymd]: the month and the day of the [n]-th day
    (from 0) of a year: an estimate of the month that is exact or one too
    large, then the correction. *)
Definition locate_in_year (leapyear : bool) (n : Z) : Z * Z :=
  let m := Z.shiftr (n + 50) 5 in
  let preceding := DAYS_BEFORE_MONTH m + (if (2 <? m) && leapyear then 1 else 0) in
  if n <? preceding then
    let m := m - 1 in
    let preceding := preceding - (mdays m + (if (m =? 2) && leapyear then 1 else 0)) in
    (m, n - preceding + 1)
  else (m, n - preceding + 1).

(** [_ord2ymd]: the date of an ordinal, through the 400-, 100-, 4- and
    1-year cycles. *)
Definition ord2ymd (ordinal : Z) : date :=
  let n := ordinal - 1 in
  let n400 := n / DI400Y in
  let n := n mod DI400Y in
  let y := n400 * 400 + 1 in
  let n100 := n / DI100Y in
  let n := n mod DI100Y in
  let n4 := n / DI4Y in
  let n := n mod DI4Y in
  let n1 := n / 365 in
  let n := n mod 365 in
  let y := y + n100 * 100 + n4 * 4 + n1 in
  if (n1 =? 4) || (n100 =? 4) then {| year := y - 1; month := 12; day := 31 |}
  else
    let leapyear := (n1 =? 3) && (negb (n4 =? 24) || (n100 =? 3)) in
    let md := locate_in_year leapyear n in
    {| year := y; month := fst md; day := snd md |}.

Definition MAXORDINAL : Z := 3652059.

(** [date + timedelta(days=n)]: through the ordinal, [OverflowError] outside
    [date.min .. date.max]. *)
Definition add_days (dt : date) (n : Z) : result date :=
  let o := toordinal dt + n in
  if (0 <? o) && (o <=? MAXORDINAL) then Ok (ord2ymd o) else Raise OverflowError.

(** [dateutil.relativedelta.relativedelta(months=..., days=...)], with the
    two relative fields the client sets. *)
Record relativedelta : Type := { months : Z; days : Z }.

(** [dt + relativedelta(...)] ([relativedelta.__radd__]): shift the month with
    a carry into the year, clip the day to the length of the new month, then
    add the relative days. *)
Definition add_relativedelta (dt : date) (rd : relativedelta) : result date :=
  let y := year dt in
  let m := month dt + months rd in
  let '(y, m) :=
    if 12 <? m then (y + 1, m - 12)
    else if m <? 1 then (y - 1, m + 12)
    else (y, m) in
  let d := Z.min (days_in_month y m) (day dt) in
  shifted ← make_date y m d;
  add_days shifted (days rd).

(** [str(n).zfill(width)] for a non-negative [n], the [%04d] and [%02d] of
    [date.isoformat]. *)
Definition zfill (width : nat) (s : string) : string :=
  String.concat "" (repeat "0"%string (width - String.length s)) +:+ s.

(** [str(dt)], which an f-string applies to a date: [YYYY-MM-DD]. *)
Definition isoformat (dt : date) : string :=
  zfill 4 (pretty (year dt)) +:+ "-" +:+ zfill 2 (pretty (month dt))
    +:+ "-" +:+ zfill 2 (pretty (day dt)).

End Calendar.

Import Calendar.

(** ** Decoded JSON and the contract data *)

Module Json.

#[local] Unset Elimination Schemes.

Inductive json : Type :=
| JNull
| JBool (b : bool)
| JNum (q : Q)
| JStr (s : string)
| JArr (items : list json)
| JObj (fields : gmap string json).

#[local] Set Elimination Schemes.

(** Truth value of a Python object, as [filter] and [if] test it. *)
Definition truthy (j : json) : bool :=
  match j with
  | JNull => false
  | JBool b => b
  | JNum q => negb (Qeq_bool q 0)
  | JStr s => negb (String.eqb s "")
  | JArr items => negb (Nat.eqb (List.length items) 0)
  | JObj fields => negb (Nat.eqb (size fields) 0)
  end.

(** [j[i]] for an integer literal [i >= 0]. *)
Definition index (j : json) (i : nat) : result json :=
  match j with
  | JArr items => getitem items i
  | JStr s =>
      match String.get i s with
      | Some c => Ok (JStr (String c EmptyString))
      | None => Raise IndexError
      end
  | JObj _ => Raise (KeyError (pretty i))
  | _ => Raise TypeError
  end.

(** [j["key"]] for a string literal. *)
Definition item (j : json) (key : string) : result json :=
  match j with
  | JObj fields =>
      match fields !! key with
      | Some v => Ok v
      | None => Raise (KeyError key)
      end
  | _ => Raise TypeError
  end.

(** [iter(j)]: the elements a [for] or [filter] walks through. *)
Definition iterate (j : json) : result (list json) :=
  match j with
  | JArr items => Ok items
  | JObj fields => Ok (map (fun kv => JStr (fst kv)) (map_to_list fields))
  | JStr s => Ok (map (fun c => JStr (String c EmptyString)) (list_ascii_of_string s))
  | _ => Raise TypeError
  end.

(** [next(filter(pred, items))]: the first element whose test is truthy;
    the test runs on each element in turn, so an exception it raises on an
    earlier element wins; [StopIteration] when the elements run out. *)
Fixpoint next_filter (pred : json -> result json) (items : list json) : result json :=
  match items with
  | [] => Raise StopIteration
  | x :: rest =>
      flag ← pred x;
      if truthy flag then Ok x else next_filter pred rest
  end.

End Json.

Import Json.

Module Contract.

(** Line 190: [contract_data[0]["products"][0]["components"]]. *)
Definition contract_components_of (contract_data : json) : result json :=
  first_contract ← index contract_data 0;
  products ← item first_contract "products";
  first_product ← index products 0;
  item first_product "components".

(** Lines 191-192: the first component whose ["is_base_price"] is truthy,
    then its ["price"]. *)
Definition base_price_of_components (contract_components : json) : result json :=
  components ← iterate contract_components;
  base_price_component ← next_filter (fun component => item component "is_base_price") components;
  item base_price_component "price".

(** Lines 190-192 on the decoded contract data. *)
Definition contract_base_price (contract_data : json) : result json :=
  contract_components ← contract_components_of contract_data;
  base_price_of_components contract_components.

(** Line 184: [contract_data[0]["delivery_site"]["id"]]. *)
Definition delivery_site_id_of (contract_data : json) : result json :=
  first_contract ← index contract_data 0;
  delivery_site ← item first_contract "delivery_site";
  item delivery_site "id".

End Contract.

Import Contract.

(** ** [cachetools.TTLCache] and the [cached] decorator *)

Module TTLCache.

Section Store.

Context {K V : Type} `{EqDecision K}.

(** One cached item: its key, its value and the time it expires at. *)
Record link : Type := { link_key : K; link_value : V; link_expires : Z }.

Definition has_key (k : K) (l : link) : bool := bool_decide (link_key l = k).

(** A store is the list of its items, least recently used first (the order
    of the cache's [OrderedDict] of links). *)
Definition find_link (k : K) (links : list link) : option link :=
  List.find (has_key k) links.

Definition remove_key (k : K) (links : list link) : list link :=
  List.filter (fun l => negb (has_key k l)) links.

(** [expire(time)]: drop the items with [not (time < expires)]. The cache
    walks its items in insertion order and stops at the first live one; with
    one fixed [ttl] and a monotonic timer the items expire in that order, so
    the walk removes every expired item. *)
Definition expire (time : Z) (links : list link) : list link :=
  List.filter (fun l => time <? link_expires l) links.

(** [cache[k]] at [time]: the link moves to the most recently used end; the
    value is returned unless the item is missing or expired ([KeyError],
    here [None]). *)
Definition getitem (time : Z) (k : K) (links : list link) : option V * list link :=
  match find_link k links with
  | Some l =>
      (if time <? link_expires l then Some (link_value l) else None,
       remove_key k links ++ [l])
  | None => (None, links)
  end.

(** [while currsize + 1 > maxsize: popitem()], each [popitem] dropping the
    least recently used item. *)
Fixpoint evict (maxsize : nat) (links : list link) : list link :=
  match links with
  | [] => []
  | _ :: rest =>
      if (maxsize <? List.length links + 1)%nat then evict maxsize rest else links
  end.

(** [cache[k] = v] at [time]: [ValueError] when one item cannot fit at all;
    otherwise expire, make room unless the key is already held, and store
    the item as the most recently used one, expiring at [time + ttl]. *)
Definition setitem (maxsize : nat) (ttl : Z) (time : Z) (k : K) (v : V)
    (links : list link) : result (list link) :=
  if (maxsize <? 1)%nat then Raise ValueError
  else
    let live := expire time links in
    let room :=
      match find_link k live with
      | Some _ => live
      | None => evict maxsize live
      end in
    Ok (remove_key k room
          ++ [{| link_key := k; link_value := v; link_expires := time + ttl |}]).

(** The value a lookup at [time] would return, without touching the order. *)
Definition peek (time : Z) (k : K) (links : list link) : option V :=
  match find_link k links with
  | Some l => if time <? link_expires l then Some (link_value l) else None
  | None => None
  end.

End Store.

Arguments link : clear implicits.

End TTLCache.

(** ** The client and the world it runs in *)

Module Client.

(** The five memoised methods of [HelenApiClient]. *)
Inductive fetch_fn : Type :=
| DailyByMonth
| MonthlyByYear
| HourlyBetweenDates
| SpotPricesBetweenDates
| ContractDataJson.

#[export] Instance fetch_fn_eq_dec : EqDecision fetch_fn.
Proof. solve_decision. Defined.

#[export] Instance date_eq_dec : EqDecision date.
Proof. solve_decision. Defined.

(** A positional argument of a memoised call; the cache key is the tuple of
    arguments ([cachetools.keys.hashkey]). The key's first component is the
    client object itself, the same for every call on one client, and is left
    out. *)
Inductive arg : Type :=
| AInt (n : Z)
| ADate (d : date).

#[export] Instance arg_eq_dec : EqDecision arg.
Proof. solve_decision. Defined.

Definition key : Type := list arg.

(** What a memoised method returns and its cache holds. *)
Inductive payload : Type :=
| Measurements (r : MeasurementResponse)
| SpotPrices (r : SpotPricesResponse)
| ContractData (j : json).

(** [@cached(cache=TTLCache(maxsize=..., ttl=3600))] on each method. *)
Definition maxsize_of (f : fetch_fn) : nat :=
  match f with
  | DailyByMonth => 4
  | MonthlyByYear => 2
  | HourlyBetweenDates => 4
  | SpotPricesBetweenDates => 4
  | ContractDataJson => 2
  end.

(** Clock readings are in microseconds. *)
Definition US_PER_SECOND : Z := 1000000.
Definition US_PER_HOUR : Z := 3600 * US_PER_SECOND.
Definition US_PER_DAY : Z := 24 * US_PER_HOUR.
Definition TTL : Z := 3600 * US_PER_SECOND.

(** Modelled from the spec: [helenservice/helen_session.py] is not among the
    sources. The spec's session is an opaque handle able to yield a bearer
    access token. *)
Record HelenSession : Type := { access_token : string }.

(** The attributes of a [HelenApiClient] object. *)
Record client : Type := {
  latest_login_time : option Z;
  session : option HelenSession;
  contract_data_dict : option json
}.

(** A call of [requests.get]. *)
Record request : Type := {
  url : string;
  params : list (string * json);
  headers : list (string * string);
  timeout : Z
}.

(** The state a call reads and writes: the wall clock ([datetime.now()], a
    naive local time counted in microseconds from 0001-01-01T00:00), the
    monotonic clock the caches time their items with, the requests sent so
    far (oldest first), the store of each method's cache, and the client. *)
Record world : Type := {
  wall_clock : Z;
  monotonic : Z;
  requests : list request;
  caches : fetch_fn -> list (TTLCache.link key payload);
  self : client
}.

(** What lies outside the client: the service answering a request (its body
    or a transport error, and the time the exchange took), the decoding of a
    body into each response shape, the login service, and the read timeout
    of [helenservice/const.py], whose value is not among the sources. *)
Class Remote : Type := {
  server : list request -> Z -> request -> result string * N;
  loads_measurement_response : string -> result MeasurementResponse;
  loads_spot_prices_response : string -> result SpotPricesResponse;
  loads_json : string -> result json;
  authenticate : string -> string -> result HelenSession;
  HTTP_READ_TIMEOUT : Z
}.

(** Computations over the world that may raise. *)
Definition M (A : Type) : Type := world -> result A * world.

Definition ret {A : Type} (a : A) : M A := fun w => (Ok a, w).

Definition lift {A : Type} (r : result A) : M A := fun w => (r, w).

Definition wbind {A B : Type} (m : M A) (k : A -> M B) : M B :=
  fun w =>
    match m w with
    | (Ok a, w') => k a w'
    | (Raise e, w') => (Raise e, w')
    end.

Notation "x <~ m ;; k" := (wbind m (fun x => k))
  (at level 100, m at next level, right associativity).

Definition set_cache (f : fetch_fn) (links : list (TTLCache.link key payload))
    (w : world) : world :=
  {| wall_clock := wall_clock w;
     monotonic := monotonic w;
     requests := requests w;
     caches := fun g => if decide (g = f) then links else caches w g;
     self := self w |}.

Definition set_self (c : client) (w : world) : world :=
  {| wall_clock := wall_clock w;
     monotonic := monotonic w;
     requests := requests w;
     caches := caches w;
     self := c |}.

(** Time passing between two calls. *)
Definition elapse (d : N) (w : world) : world :=
  {| wall_clock := wall_clock w + Z.of_N d;
     monotonic := monotonic w + Z.of_N d;
     requests := requests w;
     caches := caches w;
     self := self w |}.

(** [cachetools.cached]: look the key up; on a miss run the method, store
    its result (a [ValueError] of the store is swallowed) and return it. An
    exception of the method propagates and nothing is stored. *)
Definition cached (f : fetch_fn) (k : key) (func : M payload) : M payload :=
  fun w =>
    let '(hit, links) := TTLCache.getitem (monotonic w) k (caches w f) in
    let w := set_cache f links w in
    match hit with
    | Some v => (Ok v, w)
    | None =>
        match func w with
        | (Ok v, w') =>
            match TTLCache.setitem (maxsize_of f) TTL (monotonic w') k v (caches w' f) with
            | Ok links' => (Ok v, set_cache f links' w')
            | Raise _ => (Ok v, w')
            end
        | (Raise e, w') => (Raise e, w')
        end
    end.

End Client.

Import Client.

(** ** [HelenApiClient]: session, time windows and fetch operations *)

Module HelenApiClient.

Definition HELEN_API_URL : string := "https://api.omahelen.fi/v7".
Definition HELEN_API_URL_V8 : string := "https://api.omahelen.fi/v8".
Definition MEASUREMENTS_ENDPOINT : string := "/measurements/electricity".
Definition SPOT_PRICES_ENDPOINT : string := MEASUREMENTS_ENDPOINT +:+ "/spot-prices".
Definition CONTRACT_ENDPOINT : string := "/contract/list".

(** A freshly constructed client: the class attributes [_latest_login_time]
    and [_session] are [None]. *)
Definition new_client : client :=
  {| latest_login_time := None; session := None; contract_data_dict := None |}.

(** *** Session validity (lines 28-34) *)

(** The last instant a [datetime] can hold, 9999-12-31T23:59:59.999999. *)
Definition DATETIME_MAX : Z := MAXORDINAL * US_PER_DAY - 1.

(** [dt - timedelta(...)] for a span of [us] microseconds: [OverflowError]
    when the result leaves [datetime.min .. datetime.max]. *)
Definition datetime_sub (dt us : Z) : result Z :=
  let r := dt - us in
  if (0 <=? r) && (r <=? DATETIME_MAX) then Ok r else Raise OverflowError.

(** Lines 30-34, [now] being the reading of [datetime.now()]. *)
Definition session_valid_at (latest : option Z) (now : Z) : result bool :=
  match latest with
  | None => Ok false
  | Some latest_login_time =>
      hour_ago ← datetime_sub now US_PER_HOUR;
      Ok ((hour_ago <=? latest_login_time) && (latest_login_time <=? now))
  end.

Definition is_session_valid : M bool :=
  fun w => (session_valid_at (latest_login_time (self w)) (wall_clock w), w).

(** *** Time windows *)

(** Lines 73-80: the window of the daily measurements of [month_] of the
    on-going year. [datetime.today()] is read twice, on line 73 and on line
    74; [first_reading] and [second_reading] are the date parts of the two
    readings (the time of day is carried along unchanged and never
    printed). *)
Definition daily_window (first_reading second_reading : date) (month_ : Z)
    : result (string * string) :=
  wanted_month_first_day ← replace first_reading None (Some month_) (Some 1);
  ndays ← monthrange_ndays (year wanted_month_first_day) month_;
  wanted_month_last_day ← replace second_reading None (Some month_) (Some ndays);
  previous_month ← add_relativedelta wanted_month_last_day {| months := -1; days := 0 |};
  pdays ← monthrange_ndays (year previous_month) (month previous_month);
  previous_month_last_day ← replace previous_month None None (Some pdays);
  let start_time :=
    pretty (year previous_month_last_day) +:+ "-"
      +:+ pretty (month previous_month_last_day) +:+ "-"
      +:+ pretty (day previous_month_last_day) +:+ "T21:00:00.000Z" in
  let end_time :=
    pretty (year wanted_month_last_day) +:+ "-"
      +:+ pretty (month wanted_month_last_day) +:+ "-"
      +:+ pretty (day wanted_month_last_day) +:+ "T20:59:59.999Z" in
  Ok (start_time, end_time).

(** Lines 102-104: the window of the monthly measurements of a year. *)
Definition monthly_window (year_ : Z) : string * string :=
  let last_year := year_ - 1 in
  (pretty last_year +:+ "-12-31T22:00:00+00:00",
   pretty year_ +:+ "-12-31T21:59:59+00:00").

(** Lines 127-129: the window of the hourly measurements. *)
Definition hourly_measurements_window (start end_ : date) : result (string * string) :=
  previous_day ← add_relativedelta start {| months := 0; days := -1 |};
  let start_time := isoformat previous_day +:+ "T22:00:00+00:00" in
  let end_time := isoformat end_ +:+ "T21:59:59+00:00" in
  Ok (start_time, end_time).

(** Lines 152-154: the window of the hourly spot prices. *)
Definition hourly_spot_prices_window (start end_ : date) : result (string * string) :=
  previous_day ← add_relativedelta start {| months := 0; days := -1 |};
  let start_time := isoformat previous_day +:+ "T22:00:00+00:00" in
  let end_time := isoformat end_ +:+ "T21:59:59+00:00" in
  Ok (start_time, end_time).

(** The query parameters every measurement request carries. *)
Definition window_params (window : string * string) (resolution : string)
    (delivery_site_id : json) : list (string * json) :=
  [("begin", JStr (fst window)); ("end", JStr (snd window));
   ("resolution", JStr resolution); ("delivery_site_id", delivery_site_id);
   ("allow_transfer", JStr "true")].

(** *** Fetch operations *)

Section Fetch.

Context `{Remote}.

(** [datetime.today()], as a date. *)
Definition today (w : world) : date := ord2ymd (wall_clock w / US_PER_DAY + 1).

(** [requests.get(...).text]: the request is sent and recorded, the clocks
    advance by the time the exchange took. *)
Definition http_get (req : request) : M string :=
  fun w =>
    let '(body, took) := server (requests w) (monotonic w) req in
    (body,
     {| wall_clock := wall_clock w + Z.of_N took;
        monotonic := monotonic w + Z.of_N took;
        requests := requests w ++ [req];
        caches := caches w;
        self := self w |}).

(** Lines 22-26. *)
Definition login (username password : string) : M unit :=
  fun w =>
    match authenticate username password with
    | Ok s =>
        (Ok tt,
         set_self {| latest_login_time := Some (wall_clock w);
                     session := Some s;
                     contract_data_dict := contract_data_dict (self w) |} w)
    | Raise e => (Raise e, w)
    end.

(** Lines 36-38: closing releases the transport and changes no attribute. *)
Definition close : M unit := ret tt.

(** Lines 194-195. *)
Definition get_api_access_token : M string :=
  fun w =>
    match session (self w) with
    | Some s => (Ok (access_token s), w)
    | None => (Raise AttributeError, w)
    end.

(** Lines 197-201. *)
Definition api_request_headers : M (list (string * string)) :=
  token <~ get_api_access_token;;
  ret [("Authorization", "Bearer " +:+ token); ("Accept", "application/json")].

(** Lines 176-179, the body of [get_contract_data_json]. *)
Definition contract_data_body : M payload :=
  let contract_url := HELEN_API_URL +:+ CONTRACT_ENDPOINT in
  request_headers <~ api_request_headers;;
  body <~ http_get {| url := contract_url; params := [];
                      headers := request_headers; timeout := HTTP_READ_TIMEOUT |};;
  contract_response_dict <~ lift (loads_json body);;
  fun w =>
    (Ok (ContractData contract_response_dict),
     set_self {| latest_login_time := latest_login_time (self w);
                 session := session (self w);
                 contract_data_dict := Some contract_response_dict |} w).

(** Lines 172-173. *)
Definition get_contract_data_json : M json :=
  p <~ cached ContractDataJson [] contract_data_body;;
  match p with
  | ContractData j => ret j
  | _ => lift (Raise TypeError)
  end.

(** Lines 181-184. *)
Definition get_delivery_site_id : M json :=
  contract_data <~ get_contract_data_json;;
  lift (delivery_site_id_of contract_data).

(** Lines 186-192. *)
Definition get_contract_base_price : M json :=
  contract_data <~ get_contract_data_json;;
  lift (contract_base_price contract_data).

(** Lines 81-96, 105-120, 130-145 and 155-170: with the window built, resolve
    the delivery site, send the request and return the body. *)
Definition fetch_window (base endpoint resolution : string)
    (window : string * string) : M string :=
  delivery_site_id <~ get_delivery_site_id;;
  let request_params := window_params window resolution delivery_site_id in
  let request_url := base +:+ endpoint in
  request_headers <~ api_request_headers;;
  http_get {| url := request_url; params := request_params;
              headers := request_headers; timeout := HTTP_READ_TIMEOUT |}.

(** Lines 70-96, the body of [get_daily_measurements_by_month]. *)
Definition daily_measurements_body (month_ : Z) : M payload :=
  fun w =>
    (window <~ lift (daily_window (today w) (today w) month_);;
     body <~ fetch_window HELEN_API_URL MEASUREMENTS_ENDPOINT "day" window;;
     daily_measurement <~ lift (loads_measurement_response body);;
     ret (Measurements daily_measurement)) w.

(** Lines 100-120, the body of [get_monthly_measurements_by_year]. *)
Definition monthly_measurements_body (year_ : Z) : M payload :=
  body <~ fetch_window HELEN_API_URL MEASUREMENTS_ENDPOINT "month" (monthly_window year_);;
  monthly_measurement <~ lift (loads_measurement_response body);;
  ret (Measurements monthly_measurement).

(** Lines 125-145, the body of [get_hourly_measurements_between_dates]. *)
Definition hourly_measurements_body (start end_ : date) : M payload :=
  window <~ lift (hourly_measurements_window start end_);;
  body <~ fetch_window HELEN_API_URL MEASUREMENTS_ENDPOINT "hour" window;;
  hourly_measurement <~ lift (loads_measurement_response body);;
  ret (Measurements hourly_measurement).

(** Lines 150-170, the body of [get_hourly_spot_prices_between_dates]. *)
Definition hourly_spot_prices_body (start end_ : date) : M payload :=
  window <~ lift (hourly_spot_prices_window start end_);;
  body <~ fetch_window HELEN_API_URL_V8 SPOT_PRICES_ENDPOINT "hour" window;;
  spot_prices_measurement <~ lift (loads_spot_prices_response body);;
  ret (SpotPrices spot_prices_measurement).

(** The body of each memoised method on its positional arguments; a call
    with arguments of another shape is a [TypeError]. *)
Definition fetch_body (f : fetch_fn) (args : key) : M payload :=
  match f, args with
  | DailyByMonth, [AInt month_] => daily_measurements_body month_
  | MonthlyByYear, [AInt year_] => monthly_measurements_body year_
  | HourlyBetweenDates, [ADate start; ADate end_] => hourly_measurements_body start end_
  | SpotPricesBetweenDates, [ADate start; ADate end_] => hourly_spot_prices_body start end_
  | ContractDataJson, [] => contract_data_body
  | _, _ => lift (Raise TypeError)
  end.

(** A memoised method as its callers see it. *)
Definition fetch (f : fetch_fn) (args : key) : M payload :=
  cached f args (fetch_body f args).

Definition as_measurements (p : payload) : M MeasurementResponse :=
  match p with
  | Measurements r => ret r
  | _ => lift (Raise TypeError)
  end.

Definition as_spot_prices (p : payload) : M SpotPricesResponse :=
  match p with
  | SpotPrices r => ret r
  | _ => lift (Raise TypeError)
  end.

Definition get_daily_measurements_by_month (month_ : Z) : M MeasurementResponse :=
  p <~ fetch DailyByMonth [AInt month_];; as_measurements p.

Definition get_monthly_measurements_by_year (year_ : Z) : M MeasurementResponse :=
  p <~ fetch MonthlyByYear [AInt year_];; as_measurements p.

Definition get_hourly_measurements_between_dates (start end_ : date) : M MeasurementResponse :=
  p <~ fetch HourlyBetweenDates [ADate start; ADate end_];; as_measurements p.

Definition get_hourly_spot_prices_between_dates (start end_ : date) : M SpotPricesResponse :=
  p <~ fetch SpotPricesBetweenDates [ADate start; ADate end_];; as_spot_prices p.

(** Lines 40-66. *)
Definition calculate_impact_of_usage_between_dates (start_date end_date : date) : M Q :=
  spot_prices <~ get_hourly_spot_prices_between_dates start_date end_date;;
  let hourly_prices := measurements (interval spot_prices) in
  measured <~ get_hourly_measurements_between_dates start_date end_date;;
  first_electricity <~ lift (getitem (electricity (intervals measured)) 0);;
  let hourly_measurements := measurements first_electricity in
  lift (calculate_impact hourly_prices hourly_measurements).

End Fetch.

End HelenApiClient.

Import HelenApiClient.

(** ** Calls on a client, one after another *)

Module Trace.

(** What the command shell does to its client: a method call, or time
    passing before the next command. *)
Inductive action : Type :=
| Login (username password : string)
| Close
| IsSessionValid
| Call (f : fetch_fn) (args : key)
| GetDeliverySiteId
| GetContractBasePrice
| CalculateImpact (start_date end_date : date)
| GetApiAccessToken
| Wait (d : N).

Section Run.

Context `{Remote}.

(** The world after an action; what the call returned or raised is dropped,
    as the shell goes on to its next command either way. *)
Definition step (a : action) (w : world) : world :=
  match a with
  | Login username password => snd (login username password w)
  | Close => snd (close w)
  | IsSessionValid => snd (is_session_valid w)
  | Call f args => snd (fetch f args w)
  | GetDeliverySiteId => snd (get_delivery_site_id w)
  | GetContractBasePrice => snd (get_contract_base_price w)
  | CalculateImpact start_date end_date =>
      snd (calculate_impact_of_usage_between_dates start_date end_date w)
  | GetApiAccessToken => snd (get_api_access_token w)
  | Wait d => elapse d w
  end.

Definition run (actions : list action) (w : world) : world :=
  fold_left (fun w a => step a w) actions w.

(** A login whose credentials the service accepts. *)
Definition login_succeeds (a : action) : bool :=
  match a with
  | Login username password =>
      match authenticate username password with
      | Ok _ => true
      | Raise _ => false
      end
  | _ => false
  end.

End Run.

(** The keys under which an action may consult the cache of method [f]. *)
Definition keys_used (f : fetch_fn) (a : action) : list key :=
  match a with
  | Call g args => if decide (g = f) then [args] else []
  | CalculateImpact start_date end_date =>
      match f with
      | HourlyBetweenDates | SpotPricesBetweenDates => [[ADate start_date; ADate end_date]]
      | _ => []
      end
  | _ => []
  end.

(** The distinct keys other than [k] that a run of actions uses on the cache
    of [f]. *)
Definition other_keys (f : fetch_fn) (k : key) (actions : list action) : list key :=
  remove_dups (List.filter (fun k' => negb (bool_decide (k' = k)))
                 (flat_map (keys_used f) actions)).

End Trace.

Import Trace.

(** ** What the specification says, in its own terms *)

Module Reference.


(** The earliest date, 0001-01-01. *)
Definition date_min : date := {| year := 1; month := 1; day := 1 |}.

(** The calendar day before a date. *)
Definition day_before (dt : date) : date :=
  if 1 <? day dt then {| year := year dt; month := month dt; day := day dt - 1 |}
  else if 1 <? month dt then
    {| year := year dt; month := month dt - 1;
       day := days_in_month (year dt) (month dt - 1) |}
  else {| year := year dt - 1; month := 12; day := 31 |}.

(** The month before month [m] of year [y], as (year, month). *)
Definition previous_month_of (y m : Z) : Z * Z :=
  if m =? 1 then (y - 1, 12) else (y, m - 1).

(** The last day of a month. *)
Definition last_day_of_month (ym : Z * Z) : date :=
  {| year := fst ym; month := snd ym; day := days_in_month (fst ym) (snd ym) |}.

(** A date written as year-month-day in decimal, without padding, followed
    by a time of day. *)
Definition unpadded_stamp (dt : date) (time_of_day : string) : string :=
  pretty (year dt) +:+ "-" +:+ pretty (month dt) +:+ "-" +:+ pretty (day dt)
    +:+ time_of_day.

(** The [is_base_price] flag of a price component, when it carries one. *)
Definition base_price_flag (component : json) : option bool :=
  match component with
  | JObj fields =>
      match fields !! "is_base_price" with
      | Some (JBool b) => Some b
      | _ => None
      end
  | _ => None
  end.

(** The URL a memoised method sends its own request to. *)
Definition endpoint_of (f : fetch_fn) : string :=
  match f with
  | DailyByMonth | MonthlyByYear | HourlyBetweenDates =>
      HELEN_API_URL +:+ MEASUREMENTS_ENDPOINT
  | SpotPricesBetweenDates => HELEN_API_URL_V8 +:+ SPOT_PRICES_ENDPOINT
  | ContractDataJson => HELEN_API_URL +:+ CONTRACT_ENDPOINT
  end.

(** Every day of every month is found again from its position in the year. *)
Definition locate_in_year_checked (leap : bool) : bool :=
  forallb (fun m =>
    forallb (fun d =>
      if d <=? mdays m + (if (m =? 2) && leap then 1 else 0) then
        bool_decide
          (locate_in_year leap
             (DAYS_BEFORE_MONTH m + (if (2 <? m) && leap then 1 else 0) + d - 1)
           = (m, d))
      else true) (seqZ 1 31)) (seqZ 1 12).

End Reference.

Import Reference.

(** ** What a computation keeps true *)

Module Invariants.

(** A computation never turns the monotonic clock back, and keeps [P] true
    of the world. *)
Definition preserves (P : world -> Prop) {A : Type} (m : M A) : Prop :=
  forall w, monotonic w <= monotonic (snd (m w)) /\ (P w -> P (snd (m w))).

Section Store.

Context {K V : Type} `{EqDecision K}.

(** A store the cache operations can have produced: no key twice, no more
    items than the capacity. *)
Definition cache_wf (maxsize : nat) (links : list (TTLCache.link K V)) : Prop :=
  NoDup (map TTLCache.link_key links) /\ (List.length links <= maxsize)%nat.

(** The store holds the item [target], and every item used more recently
    than it has its key among [recent]. *)
Definition held (recent : list K) (target : TTLCache.link K V)
    (links : list (TTLCache.link K V)) : Prop :=
  exists front back,
    links = front ++ target :: back
    /\ Forall (fun l => TTLCache.link_key l ∈ recent) back.

End Store.

(** Until the item [target] of the cache of [f] expires, that cache is well
    formed and holds the item, with only keys of [recent] used after it. *)
Definition kept_until (f : fetch_fn) (recent : list key)
    (target : TTLCache.link key payload) (w : world) : Prop :=
  monotonic w < TTLCache.link_expires target ->
  cache_wf (maxsize_of f) (caches w f) /\ held recent target (caches w f).

(** The lookups that leave such an item in place: those on other caches,
    those of the item's own key, and those of the keys of [recent]. *)
Definition tolerated (f : fetch_fn) (k : key) (recent : list key)
    (f' : fetch_fn) (k' : key) : Prop :=
  f' = f -> k' <> k -> k' ∈ recent.

(** The requests a memoised method sends when its body runs to the end: its
    own, to its endpoint, preceded by at most one for the contract data,
    which every method but the contract-data one needs the delivery site
    from. *)
Definition sent_for (f : fetch_fn) (earlier : list request) (own : request) : Prop :=
  url own = endpoint_of f
  /\ (earlier = []
      \/ (f <> ContractDataJson
          /\ exists c, earlier = [c] /\ url c = endpoint_of ContractDataJson)).

(** The calls an action makes are among those [allowed], its login among
    those [login_allowed]. *)
Definition action_allowed (allowed : fetch_fn -> key -> Prop)
    (login_allowed : string -> string -> Prop) (a : action) : Prop :=
  match a with
  | Login username password => login_allowed username password
  | Call f args => allowed f args /\ allowed ContractDataJson []
  | GetDeliverySiteId | GetContractBasePrice => allowed ContractDataJson []
  | CalculateImpact start_date end_date =>
      allowed SpotPricesBetweenDates [ADate start_date; ADate end_date]
      /\ allowed HourlyBetweenDates [ADate start_date; ADate end_date]
      /\ allowed ContractDataJson []
  | _ => True
  end.

End Invariants.

Import Invariants.

(** ** A concrete service and client, for evaluating the definitions *)

Module Scenario.

Definition site : json := JObj (<["id" := JNum 7]> ∅).

Definition component (flag : bool) (price : Q) : json :=
  JObj (<["is_base_price" := JBool flag]> (<["price" := JNum price]> ∅)).

Definition product_with (components : list json) : json :=
  JObj (<["components" := JArr components]> ∅).

Definition contract_with (components : list json) : json :=
  let products := JArr (product_with components :: nil) in
  let first_contract :=
    JObj (<["delivery_site" := site]> (<["products" := products]> ∅)) in
  JArr (first_contract :: nil).

Definition contract : json :=
  contract_with [component false 3; component true 5; component false 8].

Definition contract_without_base_price : json :=
  contract_with [component false 3; component false 8].

Definition hourly : MeasurementResponse :=
  {| intervals := {| electricity := [{| measurements := series [2; 3]%Q |}] |} |}.

Definition spot : SpotPricesResponse :=
  {| interval := {| measurements := series [10; 20]%Q |} |}.

(** A service that answers every request within a second and a login that
    accepts every credential. *)
#[export] Instance remote : Remote := {|
  server := fun _ _ _ => (Ok "body"%string, 1000000%N);
  loads_measurement_response := fun _ => Ok hourly;
  loads_spot_prices_response := fun _ => Ok spot;
  loads_json := fun _ => Ok contract;
  authenticate := fun _ _ => Ok {| access_token := "token" |};
  HTTP_READ_TIMEOUT := 30
|}.

(** A service that refuses every login. *)
Definition closed_remote : Remote := {|
  server := fun _ _ _ => (Raise RequestException, 0%N);
  loads_measurement_response := fun _ => Raise ValueError;
  loads_spot_prices_response := fun _ => Raise ValueError;
  loads_json := fun _ => Raise ValueError;
  authenticate := fun _ _ => Raise RequestException;
  HTTP_READ_TIMEOUT := 30
|}.

(** 2026-11-03T12:00:00 on the wall clock. *)
Definition noon : Z := (ymd2ord 2026 11 3 - 1) * US_PER_DAY + 12 * US_PER_HOUR.

(** A process that has just created its client: nothing sent, nothing cached. *)
Definition fresh : world :=
  {| wall_clock := noon;
     monotonic := 0;
     requests := [];
     caches := fun _ => [];
     self := new_client |}.

(** The same process after a login. *)
Definition logged_in : world := snd (login "user" "password" fresh).

End Scenario.

(** ** The command shell: [helenservice/cli.py] *)

Module HelenCLIPrompt.

(** [s.split(sep)] for a separator of one character: the pieces between
    every two occurrences, empty pieces included. *)
Fixpoint split (sep : ascii) (s : string) : list string :=
  match s with
  | EmptyString => [EmptyString]
  | String c rest =>
      if Ascii.eqb c sep then EmptyString :: split sep rest
      else
        match split sep rest with
        | piece :: pieces => String c piece :: pieces
        | [] => [String c EmptyString]
        end
  end.

(** [a, b = pieces]: a [ValueError] unless there are exactly two. *)
Definition unpack_pair {A : Type} (pieces : list A) : result (A * A) :=
  match pieces with
  | [a; b] => Ok (a, b)
  | _ => Raise ValueError
  end.

(** *** [datetime.strptime(text, '%Y-%m-%d').date()]

    [_strptime] turns the format into the regular expression
    [(?P<Y>\d\d\d\d)-(?P<m>1[0-2]|0[1-9]|[1-9])-(?P<d>3[01]|[12]\d|0[1-9]|[1-9]| [1-9])],
    matches it at the start of the text, refuses text left over, and builds
    the date from the three numbers; each failure is a [ValueError]. The text
    is taken as a string of bytes, and the digits are the ten ASCII ones. *)

Definition is_digit (c : ascii) : bool :=
  (48 <=? nat_of_ascii c)%nat && (nat_of_ascii c <=? 57)%nat.

Definition digit_value (c : ascii) : Z := Z.of_nat (nat_of_ascii c) - 48.

(** The character class [[lo-hi]] of two digits. *)
Definition between (lo hi : Z) (c : ascii) : bool :=
  is_digit c && (lo <=? digit_value c) && (digit_value c <=? hi).

Definition is_char (wanted c : ascii) : bool := Ascii.eqb c wanted.

(** A piece of the expression: the ways it matches at the start of the text,
    in the order the matcher tries them, each with the text matched and the
    text that follows. *)
Definition pattern : Type := list ascii -> list (list ascii * list ascii).

Definition two_chars (first second : ascii -> bool) : pattern :=
  fun text =>
    match text with
    | a :: b :: rest => if first a && second b then [([a; b], rest)] else []
    | _ => []
    end.

Definition one_char (only : ascii -> bool) : pattern :=
  fun text =>
    match text with
    | a :: rest => if only a then [([a], rest)] else []
    | _ => []
    end.

Definition or_else (p q : pattern) : pattern := fun text => p text ++ q text.

(** [\d\d\d\d]. *)
Definition regex_Y : pattern :=
  fun text =>
    match text with
    | a :: b :: c :: d :: rest =>
        if is_digit a && is_digit b && is_digit c && is_digit d
        then [([a; b; c; d], rest)]
        else []
    | _ => []
    end.

(** [1[0-2]|0[1-9]|[1-9]]. *)
Definition regex_m : pattern :=
  or_else (two_chars (is_char "1") (between 0 2))
    (or_else (two_chars (is_char "0") (between 1 9))
       (one_char (between 1 9))).

(** [3[01]|[12]\d|0[1-9]|[1-9]| [1-9]]. *)
Definition regex_d : pattern :=
  or_else (two_chars (is_char "3") (between 0 1))
    (or_else (two_chars (between 1 2) is_digit)
       (or_else (two_chars (is_char "0") (between 1 9))
          (or_else (one_char (between 1 9))
             (two_chars (is_char " ") (between 1 9))))).

(** The literal [-]. *)
Definition dash (text : list ascii) : list (list ascii) :=
  match text with
  | c :: rest => if is_char "-" c then [rest] else []
  | [] => []
  end.

(** [-m-d], the expression after the year. *)
Definition month_and_day (text : list ascii)
    : list (list ascii * list ascii * list ascii) :=
  text ← dash text;
  '(m, text) ← regex_m text;
  text ← dash text;
  '(d, text) ← regex_d text;
  [(m, d, text)].

(** [format_regex.match(text)]: the first way the whole expression matches,
    as the three groups and the text left over. *)
Definition regex_match (text : list ascii)
    : option (list ascii * list ascii * list ascii * list ascii) :=
  head ('(y, text) ← regex_Y text;
        '(m, d, text) ← month_and_day text;
        [(y, m, d, text)]).

Fixpoint lstrip (text : list ascii) : list ascii :=
  match text with
  | c :: rest => if is_char " " c then lstrip rest else text
  | [] => []
  end.

(** [int(group)] on a matched group: digits, after a space at most. *)
Definition int (group : list ascii) : Z :=
  fold_left (fun n c => 10 * n + digit_value c) (lstrip group) 0.

Definition strptime_date (text : string) : result date :=
  match regex_match (list_ascii_of_string text) with
  | None => Raise ValueError
  | Some (y, m, d, []) => make_date (int y) (int m) (int d)
  | Some (_, _, _, _ :: _) => Raise ValueError
  end.

(** *** The commands *)

(** What a command prints. *)
Inductive printed : Type :=
| Line (text : string)
| Number (q : Q).

Definition USAGE : string :=
  "Please provide proper start and end dates in format 'YYYY-mm-dd'".

Section Commands.

Context `{Remote}.

(** Lines 44-49, the body of the [try]. *)
Definition impact_of_input (input : string) : M Q :=
  strs <~ lift (unpack_pair (split " " input));;
  let '(start_date_str, end_date_str) := strs in
  start_date <~ lift (strptime_date start_date_str);;
  end_date <~ lift (strptime_date end_date_str);;
  calculate_impact_of_usage_between_dates start_date end_date.

(** Lines 33-51: the command prints the impact, or the usage line when there
    is no input or the [try] raised a [ValueError]; any other exception
    leaves the command. *)
Definition do_calculate_the_impact_of_usage_between_dates (input : option string)
    : M printed :=
  match input with
  | None => ret (Line USAGE)
  | Some input =>
      fun w =>
        match impact_of_input input w with
        | (Ok impact, w') => (Ok (Number impact), w')
        | (Raise ValueError, w') => (Ok (Line USAGE), w')
        | (Raise e, w') => (Raise e, w')
        end
  end.

End Commands.

End HelenCLIPrompt.

Import HelenCLIPrompt.

(** ** Date stamps, digit by digit *)

Module Stamps.

(** The character of a decimal digit. *)
Definition digit (n : Z) : ascii := ascii_of_nat (Z.to_nat (48 + n)).

Definition four_digits (y : Z) : list ascii :=
  [digit (y / 1000); digit (y / 100 mod 10); digit (y / 10 mod 10); digit (y mod 10)].

(** The year of every date prints as its four digits. *)
Definition years_checked : bool :=
  forallb (fun n =>
             let y := Z.of_nat n in
             String.eqb (zfill 4 (pretty y)) (string_of_list_ascii (four_digits y)))
    (seq 1 (Z.to_nat 9999)).

(** What follows the year in the stamp of a date. *)
Definition month_day_stamp (m d : Z) : string :=
  "-" +:+ zfill 2 (pretty m) +:+ "-" +:+ zfill 2 (pretty d).

(** Every month and day stamp is read back as that month and day, with no
    text left over, and holds no space. *)
Definition months_and_days_checked : bool :=
  forallb (fun mn =>
    forallb (fun dn =>
      let m := Z.of_nat mn in
      let d := Z.of_nat dn in
      let text := list_ascii_of_string (month_day_stamp m d) in
      match head (month_and_day text) with
      | Some (gm, gd, []) => (int gm =? m) && (int gd =? d)
      | _ => false
      end
      && forallb (fun c => negb (is_char " " c)) text)
      (seq 1 31))
    (seq 1 12).

Definition spaces (s : string) : nat :=
  List.length (List.filter (is_char " ") (list_ascii_of_string s)).

End Stamps.

Import Stamps.

(** ** Terms of the further properties *)

Module Statements.

(** A computation keeps [P] true of the world, whatever it returns. *)
Definition keeps (P : world -> Prop) {A : Type} (m : M A) : Prop :=
  forall w, P w -> P (snd (m w)).

(** The two headers of lines 198-201 for a given access token. *)
Definition bearer (token : string) : list (string * string) :=
  [("Authorization", "Bearer " +:+ token); ("Accept", "application/json")].

(** A request for measurements or spot prices: one of the two measurement
    URLs, with the five query parameters of lines 82-88, 106-112, 131-137 and
    156-162. *)
Definition measurement_query (req : request) : Prop :=
  exists window resolution delivery_site_id,
    params req = window_params window resolution delivery_site_id
    /\ ((url req = HELEN_API_URL +:+ MEASUREMENTS_ENDPOINT
         /\ (resolution = "day" \/ resolution = "month" \/ resolution = "hour"))
        \/ (url req = HELEN_API_URL_V8 +:+ SPOT_PRICES_ENDPOINT
            /\ resolution = "hour")).

(** A request as the client makes them with the access token [token]. *)
Definition client_request `{Remote} (token : string) (req : request) : Prop :=
  headers req = bearer token
  /\ timeout req = HTTP_READ_TIMEOUT
  /\ ((url req = HELEN_API_URL +:+ CONTRACT_ENDPOINT /\ params req = [])
      \/ measurement_query req).

(** Every login among the actions is one of those [login_allowed]. *)
Definition logins_among (login_allowed : string -> string -> Prop)
    (actions : list action) : Prop :=
  Forall (fun a => match a with
                   | Login username password => login_allowed username password
                   | _ => True
                   end) actions.

(** What [replace] raises for a month outside 1..12: [ValueError] when a C
    [int] holds the month, [OverflowError] when none does. *)
Definition month_refusal (month_ : Z) : exn :=
  if (C_INT_MIN <=? month_) && (month_ <=? C_INT_MAX) then ValueError
  else OverflowError.

(** A price component that [filter] passes over: its ["is_base_price"]
    entry is there and tests false. *)
Definition passed_over (component : json) : Prop :=
  exists flag, item component "is_base_price" = Ok flag /\ truthy flag = false.

(** A price component that [filter] lets through: its ["is_base_price"]
    entry is there and tests true. *)
Definition let_through (component : json) : Prop :=
  exists flag, item component "is_base_price" = Ok flag /\ truthy flag = true.

End Statements.

Import Statements.

(** * Properties *)

(** ** The impact calculator *)

Section ImpactProperties.

Local Open Scope Q_scope.



(** C1. For the hourly prices [10, 20] and the hourly measurements [2, 3]
    the calculation returns 1: the weighted series is [20, 60], its total is
    80, the average price is 15, the total consumption is 5, and
    (80 - 15 * 5) / 5 = 1. Carried out on binary64 numbers the calculation
    returns exactly 1.0 as well. *)
Theorem impact_concrete_case :
  let prices := series [10; 20] in
  let consumption := series [2; 3] in
  hourly_weighted_consumption_prices prices consumption = Ok [20; 60]
  /\ sum [20; 60] == 80
  /\ (exists average, monthly_average_price prices = Ok average /\ average == 15)
  /\ total_consumption consumption == 5
  /\ (exists impact, calculate_impact prices consumption = Ok impact /\ impact == 1)
  /\ Binary64.calculate_impact [10; 20]%float [2; 3]%float = Ok 1%float.
Proof.
  cbv zeta. split; [|split; [|split; [|split; [|split]]]].
  - reflexivity.
  - reflexivity.
  - eexists. split; [vm_compute; reflexivity | reflexivity].
  - reflexivity.
  - eexists. split; [vm_compute; reflexivity | reflexivity].
  - vm_compute. reflexivity.
Qed.


End ImpactProperties.

(** ** The impact calculator on Python numbers *)

Section NumberProperties.

Import Number.

Lemma to_float_zero : to_float 0 = Ok 0%float.
Proof. reflexivity. Qed.

Lemma to_float_small (z : Z) :
  Z.abs z < FLOAT_LIMIT -> exists f, to_float z = Ok f.
Proof.
  intros Hz. unfold to_float.
  replace (Z.abs z <? FLOAT_LIMIT) with true by (symmetry; now apply Z.ltb_lt).
  eauto.
Qed.






Lemma add_plain (a b : num) : plain a -> plain b -> exists c, add a b = Ok c /\ plain c.
Proof.
  intros [-> | [x ->]] [-> | [y ->]]; eexists; (split; [reflexivity|]);
    [now left | right; eauto ..].
Qed.

Lemma sum_from_plain (items : list num) (total : num) :
  plain total -> Forall plain items ->
  exists t, sum_from total items = Ok t /\ plain t.
Proof.
  intros Htotal Hitems. revert total Htotal.
  induction Hitems as [|item rest Hitem _ IH]; intros total Htotal; simpl; [eauto|].
  destruct (add_plain total item Htotal Hitem) as (c & -> & Hc). simpl.
  now apply IH.
Qed.





Lemma for_range_all {A : Type} (P : A -> Prop) (f : nat -> result A) (start n : nat) :
  (forall i, (start <= i < start + n)%nat -> exists a, f i = Ok a /\ P a) ->
  exists l, for_range f start n = Ok l /\ Forall P l.
Proof.
  revert start. induction n as [|n IH]; intros start Hall; simpl.
  - exists []. split; [reflexivity | constructor].
  - destruct (Hall start) as (a & -> & Ha); [lia|].
    destruct (IH (S start)) as (l & -> & Hl); [intros i Hi; apply Hall; lia|].
    exists (a :: l). split; [reflexivity | now constructor].
Qed.

Lemma average_cases (total : num) (count : nat) :
  within (FLOAT_LIMIT - 1) total -> Z.of_nat count < FLOAT_LIMIT ->
  truediv total (Int (Z.of_nat count)) = Raise ZeroDivisionError
  \/ exists f, truediv total (Int (Z.of_nat count)) = Ok (Float f).
Proof.
  intros Htotal Hcount. destruct total as [z | x]; simpl in *.
  - destruct (Z.of_nat count =? 0) eqn:Hzero; [now left|]. right.
    apply Z.eqb_neq in Hzero.
    replace (FLOAT_LIMIT * Z.abs (Z.of_nat count) <=? Z.abs z) with false; [eauto|].
    symmetry. apply Z.leb_gt.
    assert (0 < FLOAT_LIMIT) by reflexivity. nia.
  - destruct (to_float_small (Z.of_nat count)) as (c & ->); [lia|]. simpl.
    destruct (PrimFloat.eqb c 0); [now left | right; eauto].
Qed.


Lemma mul_float_plain (x : float) (n : num) :
  plain n -> exists f, mul (Float x) n = Ok (Float f).
Proof. intros [-> | [y ->]]; eexists; reflexivity. Qed.

Lemma sub_plain_float (n : num) (y : float) :
  plain n -> exists f, sub n (Float y) = Ok (Float f).
Proof. intros [-> | [x ->]]; eexists; reflexivity. Qed.


(** On series of [float]s alone, which is what decimal numbers in JSON
    decode to, no conversion can fail. *)
Lemma floats_plain (l : list float) : Forall plain (map abs (map Float l)).
Proof. induction l; simpl; constructor; [right; eauto | assumption]. Qed.

Lemma sum_from_floats (l : list float) (total : num) :
  plain total -> exists t, sum_from total (map abs (map Float l)) = Ok t /\ plain t.
Proof. intros Htotal. apply sum_from_plain; [exact Htotal | apply floats_plain]. Qed.

Lemma truediv_plain (a b : num) :
  plain a -> plain b ->
  truediv a b = Raise ZeroDivisionError \/ exists f, truediv a b = Ok (Float f).
Proof.
  intros [-> | [x ->]] [-> | [y ->]]; simpl; try (now left);
    destruct (PrimFloat.eqb _ 0); (now left) || (right; eauto).
Qed.

(** X3. On series of [float]s, which is what decimal numbers in JSON decode
    to, the calculation returns a [float] or raises [ZeroDivisionError] and
    nothing else, however large the values are (infinities and NaN
    included): no [OverflowError], and no [IndexError] when the series
    differ in length. With no price at all it raises. *)
Theorem impact_of_floats (prices consumption : list float) :
  Z.of_nat (List.length prices) < FLOAT_LIMIT ->
  (calculate_impact (map Float prices) (map Float consumption)
   = Raise ZeroDivisionError
   \/ exists impact,
       calculate_impact (map Float prices) (map Float consumption)
       = Ok (Float impact))
  /\ (prices = [] ->
      calculate_impact (map Float prices) (map Float consumption)
      = Raise ZeroDivisionError).
Proof.
  intros Hcount. split; [|intros ->; reflexivity].
  unfold calculate_impact.
  destruct (for_range_all plain
              (fun i => p ← getitem (map Float prices) i;
                        m ← getitem (map Float consumption) i;
                        mul (abs p) (abs m))
              0 (Nat.min (List.length (map Float prices))
                   (List.length (map Float consumption))))
    as (weighted & -> & Hweighted).
  { intros i [_ Hi]. simpl in Hi. unfold getitem.
    rewrite !length_map in Hi. rewrite !list_lookup_fmap.
    destruct (lookup_lt_is_Some_2 prices i) as [p ->]; [lia|].
    destruct (lookup_lt_is_Some_2 consumption i) as [m ->]; [lia|].
    simpl. eexists. split; [reflexivity | right; eauto]. }
  cbn [mbind result_bind bind]. unfold sum.
  destruct (sum_from_floats prices (Int 0)) as (total_price & -> & Hprice);
    [now left|].
  cbn [mbind result_bind bind]. rewrite length_map.
  assert (Haverage :
            truediv total_price (Int (Z.of_nat (List.length prices)))
            = Raise ZeroDivisionError
            \/ exists f, truediv total_price (Int (Z.of_nat (List.length prices)))
                         = Ok (Float f)).
  { apply average_cases; [|exact Hcount].
    destruct Hprice as [-> | [x ->]]; simpl; [|exact I].
    assert (0 < FLOAT_LIMIT) by reflexivity. lia. }
  destruct Haverage as [-> | (average & ->)]; [now left|].
  cbn [mbind result_bind bind].
  destruct (sum_from_floats consumption (Int 0)) as (total & -> & Htotal);
    [now left|].
  cbn [mbind result_bind bind].
  destruct (sum_from_plain weighted (Int 0)) as (tw & -> & Htw);
    [now left | exact Hweighted |].
  cbn [mbind result_bind bind].
  destruct (mul_float_plain average total Htotal) as (tc & ->).
  cbn [mbind result_bind bind].
  destruct (sub_plain_float tw tc Htw) as (d & ->).
  cbn [mbind result_bind bind].
  apply truediv_plain; [right; eauto | exact Htotal].
Qed.

End NumberProperties.



Lemma impact_of_floats_witness :
  (Number.calculate_impact (map Number.Float [10; 20]%float)
     (map Number.Float [2; 3; 4]%float)
   = Raise ZeroDivisionError
   \/ exists impact,
       Number.calculate_impact (map Number.Float [10; 20]%float)
         (map Number.Float [2; 3; 4]%float)
       = Ok (Number.Float impact))
  /\ ([10; 20]%float = [] ->
      Number.calculate_impact (map Number.Float [10; 20]%float)
        (map Number.Float [2; 3; 4]%float)
      = Raise ZeroDivisionError).
Proof.
  apply (impact_of_floats [10; 20]%float [2; 3; 4]%float).
  vm_compute. reflexivity.
Defined.

(** ** Session validity *)

Section SessionProperties.

Lemma session_valid_at_spec (last_login now : Z) :
  US_PER_HOUR <= now <= DATETIME_MAX ->
  session_valid_at (Some last_login) now
  = Ok ((last_login <=? now) && (now <=? last_login + US_PER_HOUR)).
Proof.
  intros [Hlo Hhi]. unfold session_valid_at, datetime_sub.
  replace ((0 <=? now - US_PER_HOUR) && (now - US_PER_HOUR <=? DATETIME_MAX)) with true.
  - simpl. f_equal. rewrite andb_comm. f_equal.
    apply eq_true_iff_eq. rewrite !Z.leb_le. lia.
  - symmetry. apply andb_true_intro. rewrite !Z.leb_le.
    unfold US_PER_HOUR, US_PER_SECOND in *. lia.
Qed.

(** C6. With a login recorded at [last_login], and a clock reading from
    which one hour can be subtracted (no earlier than 0001-01-01T01:00), the
    check returns true exactly when the clock lies in the closed interval
    from [last_login] to one hour after it; a login time in the future
    gives false. The check changes nothing. *)
Theorem session_valid_window (w : world) (last_login : Z) :
  latest_login_time (self w) = Some last_login ->
  US_PER_HOUR <= wall_clock w <= DATETIME_MAX ->
  exists answer : bool,
    is_session_valid w = (Ok answer, w)
    /\ (answer = true <-> last_login <= wall_clock w <= last_login + US_PER_HOUR)
    /\ (wall_clock w < last_login -> answer = false).
Proof.
  intros Hlogin Hclock.
  exists ((last_login <=? wall_clock w) && (wall_clock w <=? last_login + US_PER_HOUR)).
  split; [|split].
  - unfold is_session_valid. rewrite Hlogin.
    now rewrite (session_valid_at_spec _ _ Hclock).
  - rewrite andb_true_iff, !Z.leb_le. tauto.
  - intros Hfuture. apply andb_false_iff. left. apply Z.leb_gt. exact Hfuture.
Qed.

Lemma session_valid_window_witness :
  exists answer : bool,
    is_session_valid Scenario.logged_in = (Ok answer, Scenario.logged_in)
    /\ (answer = true
        <-> Scenario.noon <= wall_clock Scenario.logged_in <= Scenario.noon + US_PER_HOUR)
    /\ (wall_clock Scenario.logged_in < Scenario.noon -> answer = false).
Proof.
  apply (session_valid_window Scenario.logged_in Scenario.noon).
  - reflexivity.
  - split; apply Z.leb_le; vm_compute; reflexivity.
Defined.

End SessionProperties.

(** ** The contract's base price *)

Section BasePriceProperties.

Lemma next_filter_unflagged (before rest : list json) :
  Forall (fun c => base_price_flag c = Some false) before ->
  next_filter (fun c => item c "is_base_price") (before ++ rest)
  = next_filter (fun c => item c "is_base_price") rest.
Proof.
  induction 1 as [|c before Hc _ IH]; simpl; [reflexivity|].
  unfold base_price_flag in Hc.
  destruct c as [| | | | |fields]; try discriminate.
  simpl. destruct (fields !! "is_base_price"%string) as [[| [] | | | | ]|]; try discriminate.
  simpl. exact IH.
Qed.

Lemma next_filter_flagged (c : json) (rest : list json) :
  base_price_flag c = Some true ->
  next_filter (fun c => item c "is_base_price") (c :: rest) = Ok c.
Proof.
  unfold base_price_flag. intros Hc.
  destruct c as [| | | | |fields]; try discriminate.
  simpl. destruct (fields !! "is_base_price"%string) as [[| [] | | | | ]|]; try discriminate.
  reflexivity.
Qed.

(** C7. On the price components of the first contract's first product: when
    a component flagged [is_base_price = true] is preceded only by
    components flagged false -- so in particular when it is the one flagged
    component of the list -- the lookup returns that component's price; when
    every component is flagged false the lookup fails with [StopIteration],
    the exception [next] raises when nothing is found. *)
Theorem base_price_lookup (contract_data : json) (components : list json) :
  contract_components_of contract_data = Ok (JArr components) ->
  (forall (before after : list json) (flagged price : json),
      components = before ++ flagged :: after ->
      Forall (fun c => base_price_flag c = Some false) before ->
      base_price_flag flagged = Some true ->
      item flagged "price" = Ok price ->
      contract_base_price contract_data = Ok price)
  /\ (Forall (fun c => base_price_flag c = Some false) components ->
      contract_base_price contract_data = Raise StopIteration).
Proof.
  intros Hcomponents. unfold contract_base_price. rewrite Hcomponents. simpl.
  unfold base_price_of_components. simpl. split.
  - intros before after flagged price -> Hbefore Hflagged Hprice.
    rewrite (next_filter_unflagged before _ Hbefore).
    rewrite (next_filter_flagged flagged after Hflagged). simpl. exact Hprice.
  - intros Hnone.
    rewrite <- (app_nil_r components).
    rewrite (next_filter_unflagged components [] Hnone). reflexivity.
Qed.

Lemma base_price_lookup_witness :
  contract_base_price Scenario.contract = Ok (JNum 5)
  /\ contract_base_price Scenario.contract_without_base_price = Raise StopIteration.
Proof.
  split.
  - refine (proj1 (base_price_lookup Scenario.contract
              [Scenario.component false 3; Scenario.component true 5;
               Scenario.component false 8] _)
              [Scenario.component false 3] [Scenario.component false 8]
              (Scenario.component true 5) (JNum 5) _ _ _ _).
    + vm_compute. reflexivity.
    + reflexivity.
    + repeat constructor.
    + vm_compute. reflexivity.
    + vm_compute. reflexivity.
  - refine (proj2 (base_price_lookup Scenario.contract_without_base_price
              [Scenario.component false 3; Scenario.component false 8] _) _).
    + vm_compute. reflexivity.
    + repeat constructor.
Defined.

End BasePriceProperties.

(** ** Time windows *)

Section WindowProperties.

(** C9. The hourly-measurements fetch and the hourly-spot-prices fetch build
    the same window from the same date range: the same begin and end
    strings, or the same exception; so the query parameters they make from
    it, for one delivery site, are the same too. *)
Theorem hourly_windows_agree (start end_ : date) :
  hourly_measurements_window start end_ = hourly_spot_prices_window start end_
  /\ (forall delivery_site_id : json,
        (window ← hourly_measurements_window start end_;
         Ok (window_params window "hour" delivery_site_id))
        = (window ← hourly_spot_prices_window start end_;
           Ok (window_params window "hour" delivery_site_id))).
Proof.
  assert (Hsame : hourly_measurements_window start end_
                  = hourly_spot_prices_window start end_).
  { unfold hourly_measurements_window, hourly_spot_prices_window. reflexivity. }
  split; [exact Hsame|].
  intros delivery_site_id. now rewrite Hsame.
Qed.

End WindowProperties.

Section CalendarProperties.

Lemma isleap_spec (y : Z) :
  isleap y = true <-> (y mod 4 = 0 /\ (y mod 100 <> 0 \/ y mod 400 = 0)).
Proof.
  unfold isleap.
  rewrite andb_true_iff, orb_true_iff, negb_true_iff, !Z.eqb_eq, Z.eqb_neq.
  tauto.
Qed.

(** The year before [y] split into its 400-, 100-, 4- and 1-year cycles. *)
Lemma days_before_year_cycles (y : Z) :
  let a := (y - 1) / 400 in
  let b := ((y - 1) mod 400) / 100 in
  let c := ((y - 1) mod 100) / 4 in
  let e := (y - 1) mod 4 in
  days_before_year y = DI400Y * a + DI100Y * b + DI4Y * c + 365 * e
  /\ y - 1 = 400 * a + 100 * b + 4 * c + e
  /\ 0 <= b < 4 /\ 0 <= c < 25 /\ 0 <= e < 4.
Proof.
  cbv zeta. unfold days_before_year, DI400Y, DI100Y, DI4Y.
  Z.div_mod_to_equations. lia.
Qed.

Lemma isleap_cycles (a b c e : Z) :
  0 <= b < 4 -> 0 <= c < 25 -> 0 <= e < 4 ->
  isleap (400 * a + 100 * b + 4 * c + e + 1)
  = (e =? 3) && (negb (c =? 24) || (b =? 3)).
Proof.
  intros Hb Hc He. apply eq_true_iff_eq.
  rewrite isleap_spec, andb_true_iff, orb_true_iff, negb_true_iff, !Z.eqb_eq, Z.eqb_neq.
  Z.div_mod_to_equations. lia.
Qed.

Lemma divmod_const (d q r : Z) :
  0 <= r < d -> (d * q + r) / d = q /\ (d * q + r) mod d = r.
Proof.
  intros Hr. split.
  - symmetry. apply (Z.div_unique _ _ q r); lia.
  - symmetry. apply (Z.mod_unique _ _ q r); lia.
Qed.

Lemma ord2ymd_cycles (a b c e r : Z) :
  0 <= b < 4 -> 0 <= c < 25 -> 0 <= e < 4 ->
  0 <= r < 365 + (if (e =? 3) && (negb (c =? 24) || (b =? 3)) then 1 else 0) ->
  ord2ymd (DI400Y * a + DI100Y * b + DI4Y * c + 365 * e + r + 1)
  = {| year := 400 * a + 100 * b + 4 * c + e + 1;
       month := fst (locate_in_year ((e =? 3) && (negb (c =? 24) || (b =? 3))) r);
       day := snd (locate_in_year ((e =? 3) && (negb (c =? 24) || (b =? 3))) r) |}.
Proof.
  intros Hb Hc He Hr.
  unfold ord2ymd. cbv zeta.
  replace (DI400Y * a + DI100Y * b + DI4Y * c + 365 * e + r + 1 - 1)
    with (DI400Y * a + (DI100Y * b + DI4Y * c + 365 * e + r)) by lia.
  destruct (Z.eq_dec r 365) as [Hlast | Hlast].
  - (* the 366th day of a leap year *)
    destruct ((e =? 3) && (negb (c =? 24) || (b =? 3))) eqn:L; [|lia].
    apply andb_true_iff in L. destruct L as [L3 Lc]. apply Z.eqb_eq in L3.
    apply orb_true_iff in Lc. rewrite negb_true_iff, Z.eqb_neq, Z.eqb_eq in Lc.
    rewrite Hlast, L3. clear Hr.
    destruct (divmod_const DI400Y a (DI100Y * b + DI4Y * c + 365 * 3 + 365)) as [-> ->];
      [unfold DI400Y, DI100Y, DI4Y; lia|].
    destruct (Z.eq_dec c 24) as [Hc24 | Hc24].
    + assert (Hb3 : b = 3) by lia. rewrite Hc24, Hb3.
      assert (E1 : (DI100Y * 3 + DI4Y * 24 + 365 * 3 + 365) / DI100Y = 4) by reflexivity.
      assert (E2 : (DI100Y * 3 + DI4Y * 24 + 365 * 3 + 365) mod DI100Y = 0) by reflexivity.
      rewrite E1, E2.
      change (0 mod DI4Y) with 0. change (0 / DI4Y) with 0.
      change (0 / 365) with 0. change (4 =? 4) with true.
      rewrite orb_true_r. vm_compute locate_in_year. simpl. f_equal. lia.
    + replace (DI100Y * b + DI4Y * c + 365 * 3 + 365)
        with (DI100Y * b + (DI4Y * c + 1460)) by lia.
      destruct (divmod_const DI100Y b (DI4Y * c + 1460)) as [-> ->];
        [unfold DI100Y, DI4Y; lia|].
      destruct (divmod_const DI4Y c 1460) as [-> ->]; [unfold DI4Y; lia|].
      change (1460 / 365) with 4. change (4 =? 4) with true. simpl orb. cbv iota.
      vm_compute locate_in_year. simpl. f_equal. lia.
  - assert (Hr' : 0 <= r < 365) by (destruct ((e =? 3) && _); lia).
    destruct (divmod_const DI400Y a (DI100Y * b + DI4Y * c + 365 * e + r)) as [-> ->];
      [unfold DI400Y, DI100Y, DI4Y; lia|].
    replace (DI100Y * b + DI4Y * c + 365 * e + r)
      with (DI100Y * b + (DI4Y * c + 365 * e + r)) by lia.
    destruct (divmod_const DI100Y b (DI4Y * c + 365 * e + r)) as [-> ->];
      [unfold DI100Y, DI4Y; lia|].
    replace (DI4Y * c + 365 * e + r) with (DI4Y * c + (365 * e + r)) by lia.
    destruct (divmod_const DI4Y c (365 * e + r)) as [-> ->]; [unfold DI4Y; lia|].
    destruct (divmod_const 365 e r) as [-> ->]; [lia|].
    replace (e =? 4) with false by (symmetry; apply Z.eqb_neq; lia).
    replace (b =? 4) with false by (symmetry; apply Z.eqb_neq; lia).
    simpl orb. cbv iota. f_equal. lia.
Qed.

(** The ordinal that lies [r] days into year [y] falls in year [y], at the
    month and day [locate_in_year] finds. *)
Lemma ord2ymd_in_year (y r : Z) :
  0 <= r < 365 + (if isleap y then 1 else 0) ->
  ord2ymd (days_before_year y + r + 1)
  = {| year := y;
       month := fst (locate_in_year (isleap y) r);
       day := snd (locate_in_year (isleap y) r) |}.
Proof.
  intros Hr.
  destruct (days_before_year_cycles y) as (Hdby & Hsplit & Hb & Hc & He).
  remember ((y - 1) / 400) as a eqn:Ea.
  remember (((y - 1) mod 400) / 100) as b eqn:Eb.
  remember (((y - 1) mod 100) / 4) as c eqn:Ec.
  remember ((y - 1) mod 4) as e eqn:Ee.
  clear Ea Eb Ec Ee.
  assert (Hy : y = 400 * a + 100 * b + 4 * c + e + 1) by lia.
  assert (Hleap : isleap y = (e =? 3) && (negb (c =? 24) || (b =? 3))).
  { rewrite Hy. now apply isleap_cycles. }
  rewrite Hleap in Hr |- *. rewrite Hdby.
  rewrite (ord2ymd_cycles a b c e r Hb Hc He Hr).
  f_equal. lia.
Qed.

Lemma locate_in_year_correct (leap : bool) (m d : Z) :
  1 <= m <= 12 ->
  1 <= d <= mdays m + (if (m =? 2) && leap then 1 else 0) ->
  locate_in_year leap (DAYS_BEFORE_MONTH m + (if (2 <? m) && leap then 1 else 0) + d - 1)
  = (m, d).
Proof.
  intros Hm Hd.
  assert (Hall : locate_in_year_checked leap = true) by (destruct leap; vm_compute; reflexivity).
  unfold locate_in_year_checked in Hall.
  rewrite forallb_forall in Hall.
  assert (Hm' : In m (seqZ 1 12)).
  { apply list_elem_of_In, elem_of_seqZ. lia. }
  specialize (Hall m Hm'). rewrite forallb_forall in Hall.
  assert (Hd31 : d <= 31).
  { assert (mdays m <= 31 /\ ((m =? 2) = true -> mdays m = 28)).
    { assert (Hcases : m = 1 \/ m = 2 \/ m = 3 \/ m = 4 \/ m = 5 \/ m = 6 \/ m = 7
                       \/ m = 8 \/ m = 9 \/ m = 10 \/ m = 11 \/ m = 12) by lia.
      repeat (destruct Hcases as [-> | Hcases]; [simpl; split; [lia | intros; lia || discriminate]|]).
      subst m. simpl. split; [lia | discriminate]. }
    destruct (m =? 2); destruct leap; simpl in Hd; lia. }
  assert (Hd' : In d (seqZ 1 31)).
  { apply list_elem_of_In, elem_of_seqZ. lia. }
  specialize (Hall d Hd').
  destruct (d <=? _) eqn:Hle; [|apply Z.leb_gt in Hle; lia].
  now apply bool_decide_eq_true in Hall.
Qed.

Lemma days_in_month_bounds (y m : Z) : 1 <= m <= 12 -> 28 <= days_in_month y m <= 31.
Proof.
  intros Hm. unfold days_in_month.
  assert (Hcases : m = 1 \/ m = 2 \/ m = 3 \/ m = 4 \/ m = 5 \/ m = 6 \/ m = 7
                   \/ m = 8 \/ m = 9 \/ m = 10 \/ m = 11 \/ m = 12) by lia.
  repeat (destruct Hcases as [-> | Hcases]; [simpl; destruct (isleap y); simpl; lia|]).
  subst m. simpl. lia.
Qed.

(** The days of a year before a month, plus the month, are the days before
    the next month; the twelve months fill the year. *)
Lemma days_before_next_month (y m : Z) :
  1 <= m <= 12 ->
  days_before_month y m + days_in_month y m
  = if m =? 12 then 365 + (if isleap y then 1 else 0) else days_before_month y (m + 1).
Proof.
  intros Hm. unfold days_before_month, days_in_month.
  assert (Hcases : m = 1 \/ m = 2 \/ m = 3 \/ m = 4 \/ m = 5 \/ m = 6 \/ m = 7
                   \/ m = 8 \/ m = 9 \/ m = 10 \/ m = 11 \/ m = 12) by lia.
  repeat (destruct Hcases as [-> | Hcases]; [simpl; destruct (isleap y); reflexivity|]).
  subst m. simpl. destruct (isleap y); reflexivity.
Qed.

Lemma days_before_month_bounds (y m d : Z) :
  1 <= m <= 12 -> 1 <= d <= days_in_month y m ->
  0 <= days_before_month y m + d - 1 < 365 + (if isleap y then 1 else 0).
Proof.
  intros Hm Hd. unfold days_before_month, days_in_month in *.
  assert (Hcases : m = 1 \/ m = 2 \/ m = 3 \/ m = 4 \/ m = 5 \/ m = 6 \/ m = 7
                   \/ m = 8 \/ m = 9 \/ m = 10 \/ m = 11 \/ m = 12) by lia.
  repeat (destruct Hcases as [-> | Hcases];
          [simpl in *; destruct (isleap y); simpl in *; lia|]).
  subst m. simpl in *. destruct (isleap y); simpl in *; lia.
Qed.

(** [fromordinal(toordinal(d)) = d] for every well-formed year-month-day. *)
Lemma ord2ymd_ymd2ord (y m d : Z) :
  1 <= m <= 12 -> 1 <= d <= days_in_month y m ->
  ord2ymd (ymd2ord y m d) = {| year := y; month := m; day := d |}.
Proof.
  intros Hm Hd. unfold ymd2ord.
  replace (days_before_year y + days_before_month y m + d)
    with (days_before_year y + (days_before_month y m + d - 1) + 1) by lia.
  rewrite ord2ymd_in_year by now apply days_before_month_bounds.
  unfold days_before_month, days_in_month in *.
  rewrite locate_in_year_correct by assumption.
  reflexivity.
Qed.

Lemma valid_ymd_spec (y m d : Z) :
  valid_ymd y m d = true
  <-> (1 <= y <= 9999 /\ 1 <= m <= 12 /\ 1 <= d <= days_in_month y m).
Proof.
  unfold valid_ymd, MINYEAR, MAXYEAR.
  rewrite !andb_true_iff, !Z.leb_le. tauto.
Qed.

Lemma year_length (y : Z) :
  days_before_year (y + 1) = days_before_year y + 365 + (if isleap y then 1 else 0).
Proof.
  unfold days_before_year. cbv zeta.
  replace (y + 1 - 1) with (y - 1 + 1) by lia.
  destruct (isleap y) eqn:L.
  - apply isleap_spec in L. Z.div_mod_to_equations. lia.
  - assert (Hn : ~ (y mod 4 = 0 /\ (y mod 100 <> 0 \/ y mod 400 = 0))).
    { intros Hc. apply isleap_spec in Hc. congruence. }
    Z.div_mod_to_equations. lia.
Qed.

(** The ordinal of a valid date lies between those of [date.min] and
    [date.max]. *)
Lemma toordinal_bounds (dt : date) :
  valid dt = true -> 1 <= toordinal dt <= MAXORDINAL.
Proof.
  destruct dt as [y m d]. unfold valid, toordinal, ymd2ord. simpl.
  rewrite valid_ymd_spec. intros (Hy & Hm & Hd).
  pose proof (days_before_month_bounds y m d Hm Hd) as Hin.
  pose proof (year_length y) as Hlen.
  assert (Hlo : 0 <= days_before_year y).
  { unfold days_before_year. cbv zeta. Z.div_mod_to_equations. lia. }
  assert (Hhi : days_before_year (y + 1) <= MAXORDINAL).
  { unfold days_before_year, MAXORDINAL. cbv zeta. Z.div_mod_to_equations. lia. }
  lia.
Qed.

Lemma day_before_valid (dt : date) :
  valid dt = true -> dt <> date_min -> valid (day_before dt) = true.
Proof.
  destruct dt as [y m d]. unfold valid, day_before, date_min. simpl.
  rewrite valid_ymd_spec. intros (Hy & Hm & Hd) Hmin.
  destruct (1 <? d) eqn:Ed; [|destruct (1 <? m) eqn:Em]; simpl;
    apply valid_ymd_spec.
  - apply Z.ltb_lt in Ed. lia.
  - apply Z.ltb_lt in Em.
    pose proof (days_in_month_bounds y (m - 1)). lia.
  - apply Z.ltb_ge in Ed. apply Z.ltb_ge in Em.
    assert (d = 1) by lia. assert (m = 1) by lia. subst d m.
    assert (y <> 1) by congruence.
    change (days_in_month (y - 1) 12) with 31. lia.
Qed.

Lemma day_before_ordinal (dt : date) :
  valid dt = true -> dt <> date_min -> toordinal (day_before dt) = toordinal dt - 1.
Proof.
  destruct dt as [y m d]. unfold valid, day_before, date_min, toordinal, ymd2ord. simpl.
  rewrite valid_ymd_spec. intros (Hy & Hm & Hd) Hmin.
  destruct (1 <? d) eqn:Ed; [|destruct (1 <? m) eqn:Em]; simpl.
  - lia.
  - apply Z.ltb_lt in Em. apply Z.ltb_ge in Ed.
    pose proof (days_before_next_month y (m - 1)) as Hnext.
    replace (m - 1 =? 12) with false in Hnext by (symmetry; apply Z.eqb_neq; lia).
    replace (m - 1 + 1) with m in Hnext by lia. lia.
  - apply Z.ltb_ge in Ed. apply Z.ltb_ge in Em.
    assert (d = 1) by lia. assert (m = 1) by lia. subst d m.
    pose proof (year_length (y - 1)) as Hlen.
    replace (y - 1 + 1) with y in Hlen by lia.
    unfold days_before_month. simpl.
    destruct (isleap (y - 1)); simpl; lia.
Qed.

End CalendarProperties.

Section WindowSpecifications.

Lemma as_c_int_in_range (z : Z) :
  C_INT_MIN <= z <= C_INT_MAX -> as_c_int z = Ok z.
Proof.
  intros Hz. unfold as_c_int.
  replace ((C_INT_MIN <=? z) && (z <=? C_INT_MAX)) with true; [reflexivity|].
  symmetry. apply andb_true_intro. rewrite !Z.leb_le. exact Hz.
Qed.

(** With a month and a day that a C [int] holds, [replace] builds the date
    of the year kept and of that month and day. *)
Lemma replace_month_day (dt : date) (m d : Z) :
  C_INT_MIN <= m <= C_INT_MAX -> C_INT_MIN <= d <= C_INT_MAX ->
  replace dt None (Some m) (Some d) = make_date (year dt) m d.
Proof.
  intros Hm Hd. unfold replace, keyword.
  now rewrite (as_c_int_in_range m Hm), (as_c_int_in_range d Hd).
Qed.

Lemma replace_day (dt : date) (d : Z) :
  C_INT_MIN <= d <= C_INT_MAX ->
  replace dt None None (Some d) = make_date (year dt) (month dt) d.
Proof.
  intros Hd. unfold replace, keyword. now rewrite (as_c_int_in_range d Hd).
Qed.

Lemma make_date_valid (y m d : Z) :
  valid_ymd y m d = true -> make_date y m d = Ok {| year := y; month := m; day := d |}.
Proof. intros Hv. unfold make_date. now rewrite Hv. Qed.

Lemma add_days_zero (dt : date) : valid dt = true -> add_days dt 0 = Ok dt.
Proof.
  intros Hv. unfold add_days. rewrite Z.add_0_r.
  pose proof (toordinal_bounds dt Hv) as Hb.
  replace ((0 <? toordinal dt) && (toordinal dt <=? MAXORDINAL)) with true
    by (symmetry; apply andb_true_intro; rewrite Z.ltb_lt, Z.leb_le; lia).
  destruct dt as [y m d]. unfold valid in Hv. simpl in Hv.
  apply valid_ymd_spec in Hv. destruct Hv as (_ & Hm & Hd).
  unfold toordinal. simpl. now rewrite ord2ymd_ymd2ord.
Qed.

Lemma add_days_minus_one (dt : date) :
  valid dt = true -> dt <> date_min -> add_days dt (-1) = Ok (day_before dt).
Proof.
  intros Hv Hmin. unfold add_days.
  replace (toordinal dt + -1) with (toordinal (day_before dt))
    by (rewrite day_before_ordinal by assumption; lia).
  pose proof (day_before_valid dt Hv Hmin) as Hv'.
  pose proof (toordinal_bounds _ Hv') as Hb.
  replace ((0 <? toordinal (day_before dt)) && (toordinal (day_before dt) <=? MAXORDINAL))
    with true by (symmetry; apply andb_true_intro; rewrite Z.ltb_lt, Z.leb_le; lia).
  destruct (day_before dt) as [y m d]. unfold valid in Hv'. simpl in Hv'.
  apply valid_ymd_spec in Hv'. destruct Hv' as (_ & Hm & Hd).
  unfold toordinal. simpl. now rewrite ord2ymd_ymd2ord.
Qed.

(** A relative delta of days only leaves the date as it is before the days
    are added. *)
Lemma add_relativedelta_days (dt : date) (n : Z) :
  valid dt = true ->
  add_relativedelta dt {| months := 0; days := n |} = add_days dt n.
Proof.
  intros Hv. destruct dt as [y m d]. unfold valid in Hv. simpl in Hv.
  pose proof Hv as Hv'. apply valid_ymd_spec in Hv'. destruct Hv' as (Hy & Hm & Hd).
  unfold add_relativedelta. simpl. rewrite Z.add_0_r.
  replace (12 <? m) with false by (symmetry; apply Z.ltb_ge; lia).
  replace (m <? 1) with false by (symmetry; apply Z.ltb_ge; lia).
  rewrite Z.min_r by lia.
  rewrite make_date_valid by assumption. reflexivity.
Qed.

(** One month back from the last day of a month: the previous month, the
    day clipped to its length. *)
Lemma add_relativedelta_month_back (y m : Z) :
  1 <= y <= 9999 -> 1 <= m <= 12 -> 1 < y \/ 1 < m ->
  add_relativedelta {| year := y; month := m; day := days_in_month y m |}
                    {| months := -1; days := 0 |}
  = Ok {| year := fst (previous_month_of y m);
          month := snd (previous_month_of y m);
          day := Z.min (days_in_month (fst (previous_month_of y m))
                                      (snd (previous_month_of y m)))
                       (days_in_month y m) |}.
Proof.
  intros Hy Hm Hnotfirst. unfold add_relativedelta, previous_month_of. simpl.
  replace (12 <? m + -1) with false by (symmetry; apply Z.ltb_ge; lia).
  destruct (m =? 1) eqn:E1.
  - apply Z.eqb_eq in E1. subst m. simpl.
    change (1 + -1 + 12) with 12.
    change (days_in_month (y - 1) 12) with 31.
    change (days_in_month y 1) with 31.
    change (Z.min 31 31) with 31.
    assert (Hvalid : valid_ymd (y - 1) 12 31 = true).
    { apply valid_ymd_spec. change (days_in_month (y - 1) 12) with 31. lia. }
    rewrite make_date_valid by assumption.
    now apply add_days_zero.
  - apply Z.eqb_neq in E1.
    replace (m + -1 <? 1) with false by (symmetry; apply Z.ltb_ge; lia).
    replace (m + -1) with (m - 1) by lia.
    pose proof (days_in_month_bounds y (m - 1)) as Hp.
    pose proof (days_in_month_bounds y m) as Hq.
    assert (Hvalid : valid_ymd y (m - 1)
                       (Z.min (days_in_month y (m - 1)) (days_in_month y m)) = true).
    { apply valid_ymd_spec. lia. }
    rewrite make_date_valid by assumption.
    now apply add_days_zero.
Qed.

(** C4. For a target month [m] in 1..12, with both readings of the clock in
    the same on-going year (in year 1 the month before January does not
    exist, and [m] is then at least 2), the window begins at 21:00:00.000Z
    on the last day of the month before [m] and ends at 20:59:59.999Z on the
    last day of month [m]; the year, month and day are written in decimal
    without padding. For January the begin date is December 31 of the year
    before. The begin date is the day right before the first day of month
    [m]. *)
Theorem daily_window_spec (first_reading second_reading : date) (m : Z) :
  valid first_reading = true ->
  valid second_reading = true ->
  year first_reading = year second_reading ->
  1 <= m <= 12 ->
  1 < year second_reading \/ 1 < m ->
  daily_window first_reading second_reading m
  = Ok (unpadded_stamp (last_day_of_month (previous_month_of (year second_reading) m))
                       "T21:00:00.000Z",
        unpadded_stamp (last_day_of_month (year second_reading, m)) "T20:59:59.999Z")
  /\ (m = 1 ->
      daily_window first_reading second_reading m
      = Ok (pretty (year second_reading - 1) +:+ "-12-31T21:00:00.000Z",
            pretty (year second_reading) +:+ "-1-31T20:59:59.999Z"))
  /\ toordinal (last_day_of_month (previous_month_of (year second_reading) m)) + 1
     = ymd2ord (year second_reading) m 1.
Proof.
  intros Hv1 Hv2 Hsame Hm Hnotfirst.
  destruct first_reading as [y1 mo1 d1]. destruct second_reading as [y mo d].
  unfold valid in Hv1, Hv2. simpl in Hv1, Hv2, Hsame, Hnotfirst |- *. subst y1.
  apply valid_ymd_spec in Hv2. destruct Hv2 as (Hy & _ & _). clear Hv1.
  pose proof (days_in_month_bounds y m Hm) as Hdim.
  assert (Hwindow :
    daily_window {| year := y; month := mo1; day := d1 |}
                 {| year := y; month := mo; day := d |} m
    = Ok (unpadded_stamp (last_day_of_month (previous_month_of y m)) "T21:00:00.000Z",
          unpadded_stamp (last_day_of_month (y, m)) "T20:59:59.999Z")).
  { assert (Hint : forall z, 1 <= z <= 31 -> C_INT_MIN <= z <= C_INT_MAX)
      by (unfold C_INT_MIN, C_INT_MAX; lia).
    unfold daily_window, monthrange_ndays.
    rewrite replace_month_day by (apply Hint; lia). cbn [year].
    rewrite make_date_valid by (apply valid_ymd_spec; lia).
    cbn [mbind result_bind bind year].
    replace ((1 <=? m) && (m <=? 12)) with true
      by (symmetry; apply andb_true_intro; rewrite !Z.leb_le; lia).
    cbn [mbind result_bind bind].
    rewrite replace_month_day by (apply Hint; lia). cbn [year].
    rewrite make_date_valid by (apply valid_ymd_spec; lia).
    cbn [mbind result_bind bind].
    rewrite add_relativedelta_month_back by assumption.
    cbn [mbind result_bind bind year month].
    assert (Hprev : 1 <= fst (previous_month_of y m) <= 9999
                    /\ 1 <= snd (previous_month_of y m) <= 12).
    { unfold previous_month_of. destruct (m =? 1) eqn:E1; simpl.
      - apply Z.eqb_eq in E1. lia.
      - apply Z.eqb_neq in E1. lia. }
    destruct Hprev as [Hpy Hpm].
    replace ((1 <=? snd (previous_month_of y m)) && (snd (previous_month_of y m) <=? 12))
      with true by (symmetry; apply andb_true_intro; rewrite !Z.leb_le; lia).
    cbn [mbind result_bind bind].
    pose proof (days_in_month_bounds (fst (previous_month_of y m))
                  (snd (previous_month_of y m)) Hpm) as Hpdim.
    rewrite replace_day by (apply Hint; lia). cbn [year month].
    rewrite make_date_valid by (apply valid_ymd_spec; lia).
    reflexivity. }
  split; [exact Hwindow|]. split.
  - intros ->. rewrite Hwindow. reflexivity.
  - unfold previous_month_of, last_day_of_month, toordinal, ymd2ord.
    destruct (m =? 1) eqn:E1; simpl.
    + apply Z.eqb_eq in E1. subst m.
      pose proof (year_length (y - 1)) as Hlen.
      replace (y - 1 + 1) with y in Hlen by lia.
      change (days_in_month (y - 1) 12) with 31.
      unfold days_before_month. simpl.
      destruct (isleap (y - 1)); simpl; lia.
    + apply Z.eqb_neq in E1.
      pose proof (days_before_next_month y (m - 1)) as Hnext.
      replace (m - 1 =? 12) with false in Hnext by (symmetry; apply Z.eqb_neq; lia).
      replace (m - 1 + 1) with m in Hnext by lia. lia.
Qed.

Lemma daily_window_spec_witness :
  daily_window {| year := 2026; month := 11; day := 3 |}
               {| year := 2026; month := 11; day := 3 |} 1
  = Ok ("2025-12-31T21:00:00.000Z"%string, "2026-1-31T20:59:59.999Z"%string).
Proof.
  refine (proj1 (proj2 (daily_window_spec {| year := 2026; month := 11; day := 3 |}
                                          {| year := 2026; month := 11; day := 3 |} 1
                                          _ _ _ _ _)) _).
  - reflexivity.
  - reflexivity.
  - reflexivity.
  - lia.
  - left. simpl. lia.
  - reflexivity.
Defined.

(** C5 as amended. For a date range whose start is later than 0001-01-01,
    both hourly windows begin at 22:00:00 UTC on the calendar day before the
    start and end at 21:59:59 UTC on the end date, the dates written as
    YYYY-MM-DD. *)
Theorem hourly_window_spec (start end_ : date) :
  valid start = true ->
  start <> date_min ->
  hourly_measurements_window start end_
  = Ok (isoformat (day_before start) +:+ "T22:00:00+00:00",
        isoformat end_ +:+ "T21:59:59+00:00")
  /\ hourly_spot_prices_window start end_
     = Ok (isoformat (day_before start) +:+ "T22:00:00+00:00",
           isoformat end_ +:+ "T21:59:59+00:00").
Proof.
  intros Hv Hmin.
  unfold hourly_measurements_window, hourly_spot_prices_window.
  rewrite add_relativedelta_days by assumption.
  rewrite add_days_minus_one by assumption.
  split; reflexivity.
Qed.

Lemma hourly_window_spec_witness :
  hourly_measurements_window {| year := 2022; month := 12; day := 1 |}
                             {| year := 2022; month := 12; day := 31 |}
  = Ok ("2022-11-30T22:00:00+00:00"%string, "2022-12-31T21:59:59+00:00"%string).
Proof.
  refine (proj1 (hourly_window_spec {| year := 2022; month := 12; day := 1 |}
                                    {| year := 2022; month := 12; day := 31 |} _ _)).
  - reflexivity.
  - discriminate.
Defined.

(** C5 as stated fails at the earliest date: the day before 0001-01-01 is
    outside the range of [date], and both window builders raise
    [OverflowError] instead of producing a window. *)
Lemma hourly_window_at_date_min :
  valid date_min = true
  /\ hourly_measurements_window date_min {| year := 1; month := 1; day := 31 |}
     = Raise OverflowError
  /\ hourly_spot_prices_window date_min {| year := 1; month := 1; day := 31 |}
     = Raise OverflowError.
Proof. repeat split. Qed.

End WindowSpecifications.

(** ** What the client's methods keep true *)

Section Frame.

Context `{Remote}.

Lemma preserves_ret (P : world -> Prop) {A : Type} (a : A) : preserves P (ret a).
Proof. intros w. simpl. split; [lia | tauto]. Qed.

Lemma preserves_lift (P : world -> Prop) {A : Type} (r : result A) : preserves P (lift r).
Proof. intros w. simpl. split; [lia | tauto]. Qed.

Lemma preserves_wbind (P : world -> Prop) {A B : Type} (m : M A) (k : A -> M B) :
  preserves P m -> (forall a, preserves P (k a)) -> preserves P (wbind m k).
Proof.
  intros Hm Hk w. unfold wbind.
  destruct (Hm w) as [Hclock HP].
  destruct (m w) as [[a | e] w1]; simpl in *.
  - destruct (Hk a w1) as [Hclock' HP']. split; [lia | tauto].
  - split; assumption.
Qed.

(** The world predicate under study and the calls it tolerates. *)
Variable P : world -> Prop.
Variable allowed : fetch_fn -> key -> Prop.
Variable login_allowed : string -> string -> Prop.

Hypothesis P_stable :
  forall w w', caches w' = caches w -> self w' = self w ->
    monotonic w <= monotonic w' -> P w -> P w'.

Hypothesis P_set_self :
  forall w c, latest_login_time c = latest_login_time (self w) ->
    P w -> P (set_self c w).

Hypothesis P_cached :
  forall f k body, allowed f k -> preserves P body -> preserves P (cached f k body).

Hypothesis P_login :
  forall username password, login_allowed username password ->
    preserves P (login username password).

Lemma preserves_http_get (req : request) : preserves P (http_get req).
Proof.
  intros w. unfold http_get.
  destruct (server (requests w) (monotonic w) req) as [body took]. simpl.
  split; [lia|]. apply P_stable; simpl; [reflexivity | reflexivity | lia].
Qed.

Lemma preserves_get_api_access_token : preserves P get_api_access_token.
Proof.
  intros w. unfold get_api_access_token.
  destruct (session (self w)); simpl; (split; [lia | tauto]).
Qed.

Lemma preserves_api_request_headers : preserves P api_request_headers.
Proof.
  unfold api_request_headers. apply preserves_wbind.
  - apply preserves_get_api_access_token.
  - intros token. apply preserves_ret.
Qed.

Lemma preserves_contract_data_body : preserves P contract_data_body.
Proof.
  unfold contract_data_body.
  apply preserves_wbind; [apply preserves_api_request_headers | intros request_headers].
  apply preserves_wbind; [apply preserves_http_get | intros body].
  apply preserves_wbind; [apply preserves_lift | intros contract_response_dict].
  intros w. simpl. split; [lia|]. now apply P_set_self.
Qed.

Lemma preserves_get_contract_data_json :
  allowed ContractDataJson [] -> preserves P get_contract_data_json.
Proof.
  intros Hallowed. unfold get_contract_data_json.
  apply preserves_wbind.
  - apply P_cached; [assumption | apply preserves_contract_data_body].
  - intros [r | r | j]; first [apply preserves_ret | apply preserves_lift].
Qed.

Lemma preserves_get_delivery_site_id :
  allowed ContractDataJson [] -> preserves P get_delivery_site_id.
Proof.
  intros Hallowed. unfold get_delivery_site_id.
  apply preserves_wbind; [now apply preserves_get_contract_data_json | intros j].
  apply preserves_lift.
Qed.

Lemma preserves_get_contract_base_price :
  allowed ContractDataJson [] -> preserves P get_contract_base_price.
Proof.
  intros Hallowed. unfold get_contract_base_price.
  apply preserves_wbind; [now apply preserves_get_contract_data_json | intros j].
  apply preserves_lift.
Qed.

Lemma preserves_fetch_window (base endpoint resolution : string) (window : string * string) :
  allowed ContractDataJson [] ->
  preserves P (fetch_window base endpoint resolution window).
Proof.
  intros Hallowed. unfold fetch_window.
  apply preserves_wbind; [now apply preserves_get_delivery_site_id | intros id].
  apply preserves_wbind; [apply preserves_api_request_headers | intros request_headers].
  apply preserves_http_get.
Qed.

Lemma preserves_daily_measurements_body (month_ : Z) :
  allowed ContractDataJson [] -> preserves P (daily_measurements_body month_).
Proof.
  intros Hallowed w. unfold daily_measurements_body.
  refine (preserves_wbind P _ _ _ _ w); [apply preserves_lift | intros window].
  apply preserves_wbind; [now apply preserves_fetch_window | intros body].
  apply preserves_wbind; [apply preserves_lift | intros r]. apply preserves_ret.
Qed.

Lemma preserves_monthly_measurements_body (year_ : Z) :
  allowed ContractDataJson [] -> preserves P (monthly_measurements_body year_).
Proof.
  intros Hallowed. unfold monthly_measurements_body.
  apply preserves_wbind; [now apply preserves_fetch_window | intros body].
  apply preserves_wbind; [apply preserves_lift | intros r]. apply preserves_ret.
Qed.

Lemma preserves_hourly_measurements_body (start end_ : date) :
  allowed ContractDataJson [] -> preserves P (hourly_measurements_body start end_).
Proof.
  intros Hallowed. unfold hourly_measurements_body.
  apply preserves_wbind; [apply preserves_lift | intros window].
  apply preserves_wbind; [now apply preserves_fetch_window | intros body].
  apply preserves_wbind; [apply preserves_lift | intros r]. apply preserves_ret.
Qed.

Lemma preserves_hourly_spot_prices_body (start end_ : date) :
  allowed ContractDataJson [] -> preserves P (hourly_spot_prices_body start end_).
Proof.
  intros Hallowed. unfold hourly_spot_prices_body.
  apply preserves_wbind; [apply preserves_lift | intros window].
  apply preserves_wbind; [now apply preserves_fetch_window | intros body].
  apply preserves_wbind; [apply preserves_lift | intros r]. apply preserves_ret.
Qed.

(** The body of a memoised method consults only the contract-data cache,
    and the body of the contract-data method consults none. *)
Lemma preserves_fetch_body (f : fetch_fn) (args : key) :
  allowed ContractDataJson [] \/ f = ContractDataJson ->
  preserves P (fetch_body f args).
Proof.
  intros Hallowed. unfold fetch_body.
  destruct f; destruct args as [|[n | d] [|[n' | d'] [|? ?]]];
    try apply preserves_lift;
    try apply preserves_contract_data_body;
    (destruct Hallowed as [Hallowed | Hcontract]; [|discriminate]).
  - now apply preserves_daily_measurements_body.
  - now apply preserves_monthly_measurements_body.
  - now apply preserves_hourly_measurements_body.
  - now apply preserves_hourly_spot_prices_body.
Qed.

Lemma preserves_fetch (f : fetch_fn) (args : key) :
  allowed f args ->
  allowed ContractDataJson [] \/ f = ContractDataJson ->
  preserves P (fetch f args).
Proof.
  intros Hkey Hcontract. unfold fetch.
  apply P_cached; [assumption | now apply preserves_fetch_body].
Qed.

Lemma preserves_calculate_impact (start_date end_date : date) :
  allowed SpotPricesBetweenDates [ADate start_date; ADate end_date] ->
  allowed HourlyBetweenDates [ADate start_date; ADate end_date] ->
  allowed ContractDataJson [] ->
  preserves P (calculate_impact_of_usage_between_dates start_date end_date).
Proof.
  intros Hspot Hhourly Hcontract.
  unfold calculate_impact_of_usage_between_dates,
    get_hourly_spot_prices_between_dates, get_hourly_measurements_between_dates.
  apply preserves_wbind.
  { apply preserves_wbind; [apply preserves_fetch; auto | intros p].
    unfold as_spot_prices. destruct p; first [apply preserves_ret | apply preserves_lift]. }
  intros spot_prices.
  apply preserves_wbind.
  { apply preserves_wbind; [apply preserves_fetch; auto | intros p].
    unfold as_measurements. destruct p; first [apply preserves_ret | apply preserves_lift]. }
  intros measured.
  apply preserves_wbind; [apply preserves_lift | intros first_electricity].
  apply preserves_lift.
Qed.

Lemma step_preserves (a : action) (w : world) :
  action_allowed allowed login_allowed a ->
  monotonic w <= monotonic (step a w) /\ (P w -> P (step a w)).
Proof.
  destruct a as [username password | | | f args | | | start_date end_date | | d];
    simpl; intros Hallowed.
  - now apply P_login.
  - split; [lia | tauto].
  - split; [lia | tauto].
  - destruct Hallowed as [Hkey Hcontract]. apply preserves_fetch; auto.
  - now apply preserves_get_delivery_site_id.
  - now apply preserves_get_contract_base_price.
  - destruct Hallowed as (Hspot & Hhourly & Hcontract).
    now apply preserves_calculate_impact.
  - apply preserves_get_api_access_token.
  - split; [lia|]. apply P_stable; simpl; [reflexivity | reflexivity | lia].
Qed.

Lemma run_preserves (actions : list action) (w : world) :
  Forall (action_allowed allowed login_allowed) actions ->
  monotonic w <= monotonic (run actions w) /\ (P w -> P (run actions w)).
Proof.
  intros Hall. revert w.
  induction Hall as [|a actions Ha _ IH]; intros w; simpl.
  - split; [lia | tauto].
  - destruct (step_preserves a w Ha) as [Hclock HP].
    destruct (IH (step a w)) as [Hclock' HP'].
    split; [lia | tauto].
Qed.

End Frame.

(** ** Before the first login *)

Section BeforeLogin.

Context `{Remote}.

Lemma never_logged_in_run (actions : list action) (w : world) :
  latest_login_time (self w) = None ->
  forallb (fun a => negb (login_succeeds a)) actions = true ->
  latest_login_time (self (run actions w)) = None.
Proof.
  intros Hnone Hnologin.
  refine (proj2 (run_preserves
            (fun w => latest_login_time (self w) = None)
            (fun _ _ => True)
            (fun username password =>
               match authenticate username password with
               | Ok _ => False
               | Raise _ => True
               end)
            _ _ _ _ actions w _) Hnone).
  - intros w1 w2 _ Hself _. now rewrite Hself.
  - intros w1 c Hsame. simpl. now rewrite Hsame.
  - intros f k body _ Hbody w1. unfold cached.
    destruct (TTLCache.getitem (monotonic w1) k (caches w1 f)) as [[v|] links].
    + simpl. split; [lia | tauto].
    + destruct (Hbody (set_cache f links w1)) as [Hclock HP].
      destruct (body (set_cache f links w1)) as [[v | e] w2]; simpl in *.
      * destruct (TTLCache.setitem _ _ _ _ _ _); simpl; split; assumption.
      * split; assumption.
  - intros username password Hfails w1. unfold login.
    destruct (authenticate username password); [contradiction|].
    simpl. split; [lia | tauto].
  - rewrite forallb_forall in Hnologin. apply List.Forall_forall.
    intros a Ha. specialize (Hnologin a Ha).
    destruct a; simpl; auto.
    simpl in Hnologin. destruct (authenticate username password); [discriminate | exact I].
Qed.

(** C10. A freshly constructed client has no login time, and as long as no
    login has succeeded -- whatever else has been called on the client and
    whatever the clock reads -- the validity check returns false, raising
    nothing and changing nothing. *)
Theorem session_invalid_before_login (actions : list action) (w : world) :
  self w = new_client ->
  forallb (fun a => negb (login_succeeds a)) actions = true ->
  is_session_valid (run actions w) = (Ok false, run actions w).
Proof.
  intros Hfresh Hnologin. unfold is_session_valid.
  rewrite never_logged_in_run; [reflexivity | now rewrite Hfresh | assumption].
Qed.

End BeforeLogin.

Lemma session_invalid_before_login_witness :
  let refused := [Login "user" "password"; Wait 7200000000; IsSessionValid;
                  Call ContractDataJson []; Close] in
  is_session_valid (@run Scenario.closed_remote refused Scenario.fresh)
  = (Ok false, @run Scenario.closed_remote refused Scenario.fresh).
Proof.
  cbv zeta.
  apply (@session_invalid_before_login Scenario.closed_remote); reflexivity.
Defined.

(** ** The cache store *)

Section StoreProperties.

Context {K V : Type} `{EqDecision K}.

Import TTLCache.

Local Abbreviation item := (TTLCache.link K V).
Local Abbreviation keys := (map (@TTLCache.link_key K V)).

Lemma keys_filter_subset (p : item -> bool) (links : list item) (k : K) :
  In k (keys (List.filter p links)) -> In k (keys links).
Proof.
  rewrite !in_map_iff. intros (l & Hk & Hl).
  apply filter_In in Hl. exists l. tauto.
Qed.

Lemma keys_filter_nodup (p : item -> bool) (links : list item) :
  NoDup (keys links) -> NoDup (keys (List.filter p links)).
Proof.
  induction links as [|l links IH]; simpl; intros Hnodup; [constructor|].
  apply NoDup_cons in Hnodup. destruct Hnodup as [Hfresh Hnodup].
  destruct (p l); simpl; [|now apply IH].
  apply NoDup_cons. split; [|now apply IH].
  rewrite list_elem_of_In in *. intros Hin. apply Hfresh.
  now apply keys_filter_subset in Hin.
Qed.

Lemma keys_remove_key (k : K) (links : list item) : ~ In k (keys (remove_key k links)).
Proof.
  unfold remove_key. rewrite in_map_iff. intros (l & Hk & Hl).
  apply filter_In in Hl. destruct Hl as [_ Hl].
  unfold has_key in Hl. rewrite Hk in Hl.
  now rewrite bool_decide_eq_true_2 in Hl.
Qed.

Lemma filter_length_strict (p : item -> bool) (links : list item) (l : item) :
  In l links -> p l = false ->
  (List.length (List.filter p links) < List.length links)%nat.
Proof.
  induction links as [|x links IH]; simpl; [tauto|].
  intros [-> | Hin] Hp.
  - rewrite Hp. pose proof (List.filter_length_le p links). lia.
  - specialize (IH Hin Hp). destruct (p x); simpl; lia.
Qed.

Lemma find_link_key (k : K) (links : list item) (l : item) :
  find_link k links = Some l -> In l links /\ link_key l = k.
Proof.
  unfold find_link. intros Hfind. apply find_some in Hfind.
  destruct Hfind as [Hin Hkey]. split; [assumption|].
  unfold has_key in Hkey. now apply bool_decide_eq_true in Hkey.
Qed.

Lemma find_link_none (k : K) (links : list item) :
  find_link k links = None -> ~ In k (keys links).
Proof.
  unfold find_link. intros Hfind. rewrite in_map_iff. intros (l & Hk & Hl).
  pose proof (find_none _ _ Hfind l Hl) as Hno.
  unfold has_key in Hno. rewrite Hk in Hno.
  now rewrite bool_decide_eq_true_2 in Hno.
Qed.

(** With no key twice, the item found under the target's key is the target. *)
Lemma find_link_target (front back : list item) (target : item) :
  NoDup (keys (front ++ target :: back)) ->
  find_link (link_key target) (front ++ target :: back) = Some target.
Proof.
  intros Hnodup. unfold find_link.
  induction front as [|x front IH]; simpl in *.
  - unfold has_key. now rewrite bool_decide_eq_true_2.
  - apply NoDup_cons in Hnodup. destruct Hnodup as [Hfresh Hnodup].
    unfold has_key at 1. rewrite bool_decide_eq_false_2; [now apply IH|].
    intros Hsame. apply Hfresh. rewrite Hsame.
    apply list_elem_of_In. rewrite map_app. apply in_or_app. right. now left.
Qed.

Lemma remove_key_target (front back : list item) (target : item) :
  remove_key (link_key target) (front ++ target :: back)
  = remove_key (link_key target) front ++ remove_key (link_key target) back.
Proof.
  unfold remove_key. rewrite List.filter_app. simpl.
  unfold has_key at 2. now rewrite bool_decide_eq_true_2.
Qed.

Lemma remove_key_other (k : K) (front back : list item) (target : item) :
  k <> link_key target ->
  remove_key k (front ++ target :: back)
  = remove_key k front ++ target :: remove_key k back.
Proof.
  intros Hother. unfold remove_key. rewrite List.filter_app. simpl.
  unfold has_key at 2. rewrite bool_decide_eq_false_2 by congruence. reflexivity.
Qed.

(** Dropping the items of one key and appending an item of that key keeps a
    store well formed when there is room, and keeps a target of another key
    held when the key is among the recent ones. *)
Lemma append_after_remove (maxsize : nat) (recent : list K) (target new : item)
    (room : list item) :
  NoDup (keys room) ->
  (List.length (remove_key (link_key new) room) + 1 <= maxsize)%nat ->
  cache_wf maxsize (remove_key (link_key new) room ++ [new])
  /\ (link_key new <> link_key target -> link_key new ∈ recent ->
      held recent target room ->
      held recent target (remove_key (link_key new) room ++ [new])).
Proof.
  intros Hnodup Hroom. split.
  - split.
    + rewrite map_app. simpl. apply NoDup_app. split; [|split].
      * now apply keys_filter_nodup.
      * intros k Hk Hnew. apply list_elem_of_In in Hk.
        apply list_elem_of_In in Hnew. destruct Hnew as [<- | []].
        now apply keys_remove_key in Hk.
      * apply NoDup_singleton.
    + rewrite length_app. simpl. lia.
  - intros Hother Hrecent (front & back & -> & Hback).
    exists (remove_key (link_key new) front), (remove_key (link_key new) back ++ [new]).
    split.
    + rewrite remove_key_other by assumption. now rewrite <- app_assoc.
    + apply Forall_app. split.
      * apply List.Forall_forall. intros l Hl. apply filter_In in Hl.
        rewrite List.Forall_forall in Hback. apply Hback. tauto.
      * now repeat constructor.
Qed.

Lemma getitem_wf (maxsize : nat) (time : Z) (k : K) (links : list item) :
  cache_wf maxsize links -> cache_wf maxsize (snd (getitem time k links)).
Proof.
  intros [Hnodup Hsize]. unfold getitem.
  destruct (find_link k links) as [l|] eqn:Hfind; simpl; [|now split].
  destruct (find_link_key _ _ _ Hfind) as [Hin Hkey]. subst k.
  refine (proj1 (append_after_remove maxsize [] l l links Hnodup _)).
  pose proof (filter_length_strict (fun x => negb (has_key (link_key l) x)) links l Hin) as Hlt.
  unfold remove_key.
  assert (negb (has_key (link_key l) l) = false) as Hdrop.
  { unfold has_key. now rewrite bool_decide_eq_true_2. }
  specialize (Hlt Hdrop). lia.
Qed.

(** A lookup of the target's key before it expires is a hit, and the target
    stays held. *)
Lemma getitem_target (maxsize : nat) (recent : list K) (target : item)
    (time : Z) (links : list item) :
  cache_wf maxsize links -> held recent target links ->
  time < link_expires target ->
  fst (getitem time (link_key target) links) = Some (link_value target)
  /\ held recent target (snd (getitem time (link_key target) links)).
Proof.
  intros [Hnodup Hsize] (front & back & -> & Hback) Hlive.
  unfold getitem. rewrite find_link_target by assumption.
  replace (time <? link_expires target) with true by (symmetry; now apply Z.ltb_lt).
  simpl. split; [reflexivity|].
  rewrite remove_key_target.
  exists (remove_key (link_key target) front ++ remove_key (link_key target) back), [].
  split; [reflexivity | constructor].
Qed.

(** A lookup of another key, one of the recent ones, keeps the target held. *)
Lemma getitem_other (maxsize : nat) (recent : list K) (target : item)
    (time : Z) (k : K) (links : list item) :
  cache_wf maxsize links -> held recent target links ->
  k <> link_key target -> k ∈ recent ->
  held recent target (snd (getitem time k links)).
Proof.
  intros [Hnodup Hsize] Hheld Hother Hrecent. unfold getitem.
  destruct (find_link k links) as [l|] eqn:Hfind; simpl; [|assumption].
  destruct (find_link_key _ _ _ Hfind) as [Hin Hkey]. subst k.
  refine (proj2 (append_after_remove (List.length links + 1) recent target l links Hnodup _)
            Hother Hrecent Hheld).
  pose proof (List.filter_length_le (fun x => negb (has_key (link_key l) x)) links).
  unfold remove_key. lia.
Qed.

Lemma evict_spec (maxsize : nat) (links : list item) :
  (List.length links <= maxsize)%nat ->
  evict maxsize links
  = if (List.length links <? maxsize)%nat then links else tl links.
Proof.
  intros Hsize. destruct links as [|x rest]; simpl in *.
  - now destruct (0 <? maxsize)%nat.
  - destruct (Nat.ltb_spec (S (List.length rest)) maxsize) as [Hroom | Hfull].
    + replace (maxsize <? S (List.length rest + 1))%nat with false; [reflexivity|].
      symmetry. apply Nat.ltb_ge. lia.
    + replace (maxsize <? S (List.length rest + 1))%nat with true
        by (symmetry; apply Nat.ltb_lt; lia).
      destruct rest as [|y rest']; simpl in *; [reflexivity|].
      replace (maxsize <? S (List.length rest' + 1))%nat with false; [reflexivity|].
      symmetry. apply Nat.ltb_ge. lia.
Qed.

Lemma expire_wf (maxsize : nat) (time : Z) (links : list item) :
  cache_wf maxsize links -> cache_wf maxsize (expire time links).
Proof.
  intros [Hnodup Hsize]. unfold expire. split.
  - now apply keys_filter_nodup.
  - pose proof (List.filter_length_le (fun l => time <? link_expires l) links). lia.
Qed.

Lemma expire_held (recent : list K) (target : item) (time : Z) (links : list item) :
  time < link_expires target ->
  held recent target links -> held recent target (expire time links).
Proof.
  intros Hlive (front & back & -> & Hback).
  exists (expire time front), (expire time back). split.
  - unfold expire. rewrite List.filter_app. simpl.
    replace (time <? link_expires target) with true by (symmetry; now apply Z.ltb_lt).
    reflexivity.
  - apply List.Forall_forall. intros l Hl. apply filter_In in Hl.
    rewrite List.Forall_forall in Hback. apply Hback. tauto.
Qed.

(** The store in which [setitem] puts its item: the live items, less the
    least recently used one when the key is new and the store is full. *)
Lemma room_for_item (maxsize : nat) (k : K) (live : list item) :
  (1 <= maxsize)%nat -> cache_wf maxsize live ->
  let room := match find_link k live with
              | Some _ => live
              | None => evict maxsize live
              end in
  NoDup (keys room)
  /\ (List.length (remove_key k room) + 1 <= maxsize)%nat
  /\ (room = live
      \/ (find_link k live = None /\ List.length live = maxsize /\ room = tl live)).
Proof.
  intros Hpos [Hnodup Hsize]. cbv zeta.
  destruct (find_link k live) as [l|] eqn:Hfind.
  - split; [assumption|]. split; [|now left].
    destruct (find_link_key _ _ _ Hfind) as [Hin Hkey].
    pose proof (filter_length_strict (fun x => negb (has_key k x)) live l Hin) as Hlt.
    unfold remove_key.
    assert (negb (has_key k l) = false) as Hdrop.
    { unfold has_key. now rewrite bool_decide_eq_true_2. }
    specialize (Hlt Hdrop). lia.
  - rewrite evict_spec by assumption.
    destruct (Nat.ltb_spec (List.length live) maxsize) as [Hroom | Hfull].
    + split; [assumption|]. split; [|now left].
      pose proof (List.filter_length_le (fun x => negb (has_key k x)) live).
      unfold remove_key. lia.
    + destruct live as [|x rest]; simpl in *; [lia|].
      apply NoDup_cons in Hnodup. destruct Hnodup as [_ Hnodup].
      split; [assumption|]. split.
      * pose proof (List.filter_length_le (fun x => negb (has_key k x)) rest).
        unfold remove_key. lia.
      * right. repeat split. lia.
Qed.

(** Storing an item leaves a well-formed store that holds it as the most
    recently used one, expiring [ttl] after the time of the store. *)
Lemma setitem_stores (maxsize : nat) (ttl time : Z) (k : K) (v : V)
    (recent : list K) (links : list item) :
  (1 <= maxsize)%nat -> cache_wf maxsize links ->
  exists links',
    setitem maxsize ttl time k v links = Ok links'
    /\ cache_wf maxsize links'
    /\ held recent {| link_key := k; link_value := v; link_expires := time + ttl |} links'.
Proof.
  intros Hpos Hwf. unfold setitem.
  replace (maxsize <? 1)%nat with false by (symmetry; apply Nat.ltb_ge; lia).
  pose proof (room_for_item maxsize k (expire time links) Hpos (expire_wf _ _ _ Hwf))
    as (Hnodup & Hroom & _).
  cbv zeta in Hnodup, Hroom.
  set (room := match find_link k (expire time links) with
               | Some _ => expire time links
               | None => evict maxsize (expire time links)
               end) in *.
  set (new := {| link_key := k; link_value := v; link_expires := time + ttl |}).
  eexists. split; [reflexivity|]. split.
  - exact (proj1 (append_after_remove maxsize recent new new room Hnodup Hroom)).
  - exists (remove_key k room), []. split; [reflexivity | constructor].
Qed.

(** Storing an item of another key keeps a live target held, as long as
    fewer keys than the capacity are used besides the target's: the item
    evicted, if any, is then never the target. *)
Lemma setitem_other (maxsize : nat) (ttl time : Z) (k : K) (v : V)
    (recent : list K) (target : item) (links : list item) :
  (List.length recent < maxsize)%nat ->
  cache_wf maxsize links -> held recent target links ->
  time < link_expires target ->
  k <> link_key target -> k ∈ recent ->
  exists links',
    setitem maxsize ttl time k v links = Ok links'
    /\ cache_wf maxsize links'
    /\ held recent target links'.
Proof.
  intros Hfew Hwf Hheld Hlive Hother Hrecent. unfold setitem.
  replace (maxsize <? 1)%nat with false by (symmetry; apply Nat.ltb_ge; lia).
  assert (Hpos : (1 <= maxsize)%nat) by lia.
  pose proof (expire_wf maxsize time links Hwf) as Hwf'.
  pose proof (expire_held recent target time links Hlive Hheld) as Hheld'.
  pose proof (room_for_item maxsize k (expire time links) Hpos Hwf')
    as (Hnodup & Hroom & Hshape).
  cbv zeta in Hnodup, Hroom, Hshape.
  set (room := match find_link k (expire time links) with
               | Some _ => expire time links
               | None => evict maxsize (expire time links)
               end) in *.
  set (new := {| link_key := k; link_value := v; link_expires := time + ttl |}).
  assert (Hheld_room : held recent target room).
  { destruct Hshape as [-> | (Hnone & Hfull & ->)]; [assumption|].
    destruct Hheld' as (front & back & Hsplit & Hback).
    destruct front as [|x front].
    - (* the target would be evicted: then the store is full of recent keys *)
      exfalso. rewrite Hsplit in Hfull, Hnone. simpl in Hfull.
      destruct Hwf' as [Hnodup' _]. rewrite Hsplit in Hnodup'. simpl in Hnodup'.
      apply NoDup_cons in Hnodup'. destruct Hnodup' as [_ Hnodup'].
      apply find_link_none in Hnone. simpl in Hnone.
      assert (Hdistinct : NoDup (k :: keys back)).
      { apply NoDup_cons. split; [|assumption].
        rewrite list_elem_of_In. tauto. }
      assert (Hsub : forall x, x ∈ k :: keys back -> x ∈ recent).
      { intros x Hx. apply elem_of_cons in Hx. destruct Hx as [-> | Hx]; [assumption|].
        apply list_elem_of_In, in_map_iff in Hx. destruct Hx as (l & <- & Hl).
        rewrite List.Forall_forall in Hback. now apply Hback. }
      pose proof (submseteq_length _ _ (NoDup_submseteq _ _ Hdistinct Hsub)) as Hlen.
      simpl in Hlen. rewrite length_map in Hlen. lia.
    - rewrite Hsplit. simpl. exists front, back. split; [reflexivity | assumption]. }
  eexists. split; [reflexivity|]. split.
  - exact (proj1 (append_after_remove maxsize recent target new room Hnodup Hroom)).
  - exact (proj2 (append_after_remove maxsize recent target new room Hnodup Hroom)
             Hother Hrecent Hheld_room).
Qed.

(** A lookup that finds nothing live returns nothing. *)
Lemma getitem_peek (time : Z) (k : K) (links : list item) :
  fst (getitem time k links) = peek time k links.
Proof.
  unfold getitem, peek. now destruct (find_link k links).
Qed.

End StoreProperties.

(** ** Memoised calls *)

Section MemoisedCalls.

Context `{Remote}.

Lemma wbind_ok {A B : Type} (m : M A) (k : A -> M B) (w w' : world) (b : B) :
  wbind m k w = (Ok b, w') ->
  exists a w1, m w = (Ok a, w1) /\ k a w1 = (Ok b, w').
Proof.
  unfold wbind. destruct (m w) as [[a | e] w1]; intros Hrun; [eauto | discriminate].
Qed.

Lemma caches_set_cache_same (f : fetch_fn) (links : list (TTLCache.link key payload))
    (w : world) :
  caches (set_cache f links w) f = links.
Proof. simpl. now rewrite decide_True. Qed.

Lemma caches_set_cache_other (f g : fetch_fn) (links : list (TTLCache.link key payload))
    (w : world) :
  g <> f -> caches (set_cache f links w) g = caches w g.
Proof. intros Hother. simpl. now rewrite decide_False. Qed.

(** *** The requests of one call *)

Lemma api_request_headers_ok (w w' : world) (h : list (string * string)) :
  api_request_headers w = (Ok h, w') -> w' = w.
Proof.
  unfold api_request_headers, wbind, get_api_access_token, ret.
  destruct (session (self w)); intros Hrun; now inversion Hrun.
Qed.

Lemma http_get_ok (req : request) (w w' : world) (body : string) :
  http_get req w = (Ok body, w') -> requests w' = requests w ++ [req].
Proof.
  unfold http_get. destruct (server _ _ _) as [r took]. intros Hrun.
  now inversion Hrun.
Qed.

Lemma lift_ok {A : Type} (r : result A) (w w' : world) (a : A) :
  lift r w = (Ok a, w') -> w' = w.
Proof. unfold lift. intros Hrun. now inversion Hrun. Qed.

Lemma contract_data_body_ok (w w' : world) (p : payload) :
  contract_data_body w = (Ok p, w') ->
  exists req, requests w' = requests w ++ [req]
              /\ url req = endpoint_of ContractDataJson.
Proof.
  unfold contract_data_body. intros Hrun.
  apply wbind_ok in Hrun. destruct Hrun as (h & w1 & Hheaders & Hrun).
  apply api_request_headers_ok in Hheaders. subst w1.
  apply wbind_ok in Hrun. destruct Hrun as (body & w2 & Hget & Hrun).
  apply http_get_ok in Hget.
  apply wbind_ok in Hrun. destruct Hrun as (j & w3 & Hloads & Hrun).
  apply lift_ok in Hloads. subst w3.
  inversion Hrun; subst. simpl. eexists. split; [eassumption | reflexivity].
Qed.

(** A memoised call that returns either found its answer, sending nothing,
    or ran its body to the end and stored the answer. *)
Lemma cached_ok (f : fetch_fn) (k : key) (body : M payload) (w w' : world) (p : payload) :
  cached f k body w = (Ok p, w') ->
  (TTLCache.peek (monotonic w) k (caches w f) = Some p
   /\ requests w' = requests w /\ monotonic w' = monotonic w)
  \/ (TTLCache.peek (monotonic w) k (caches w f) = None
      /\ exists wb,
          body (set_cache f (snd (TTLCache.getitem (monotonic w) k (caches w f))) w)
          = (Ok p, wb)
          /\ requests w' = requests wb /\ monotonic w' = monotonic wb
          /\ w' = match TTLCache.setitem (maxsize_of f) TTL (monotonic wb) k p
                          (caches wb f) with
                  | Ok links => set_cache f links wb
                  | Raise _ => wb
                  end).
Proof.
  unfold cached. rewrite <- getitem_peek.
  destruct (TTLCache.getitem (monotonic w) k (caches w f)) as [[v|] links]; simpl.
  - intros Hrun. inversion Hrun; subst. left. auto.
  - intros Hrun. right. split; [reflexivity|].
    destruct (body (set_cache f links w)) as [[v | e] wb]; [|discriminate].
    exists wb.
    destruct (TTLCache.setitem _ _ _ _ _ _) as [links'|] eqn:Hset;
      inversion Hrun; subst; simpl; rewrite ?Hset; repeat split; eauto.
Qed.

Lemma get_delivery_site_id_ok (w w' : world) (id : json) :
  get_delivery_site_id w = (Ok id, w') ->
  requests w' = requests w
  \/ exists req, requests w' = requests w ++ [req]
                 /\ url req = endpoint_of ContractDataJson.
Proof.
  unfold get_delivery_site_id, get_contract_data_json. intros Hrun.
  apply wbind_ok in Hrun. destruct Hrun as (j & w1 & Hjson & Hid).
  apply lift_ok in Hid. subst w1.
  apply wbind_ok in Hjson. destruct Hjson as (p & w1 & Hcached & Hcast).
  assert (w' = w1).
  { destruct p; simpl in Hcast; unfold lift, ret in Hcast; now inversion Hcast. }
  subst w1.
  apply cached_ok in Hcached.
  destruct Hcached as [(_ & Hsame & _) | (_ & wb & Hbody & Hsame & _)].
  - now left.
  - right. apply contract_data_body_ok in Hbody.
    destruct Hbody as (req & Hreq & Hurl). exists req. simpl in Hreq.
    split; [congruence | assumption].
Qed.

Lemma fetch_window_ok (base endpoint resolution : string) (window : string * string)
    (w w' : world) (body : string) :
  fetch_window base endpoint resolution window w = (Ok body, w') ->
  exists earlier own,
    requests w' = requests w ++ earlier ++ [own]
    /\ url own = base +:+ endpoint
    /\ (earlier = []
        \/ exists c, earlier = [c] /\ url c = endpoint_of ContractDataJson).
Proof.
  unfold fetch_window. intros Hrun.
  apply wbind_ok in Hrun. destruct Hrun as (id & w1 & Hid & Hrun).
  apply get_delivery_site_id_ok in Hid.
  apply wbind_ok in Hrun. destruct Hrun as (h & w2 & Hheaders & Hget).
  apply api_request_headers_ok in Hheaders. subst w2.
  apply http_get_ok in Hget.
  destruct Hid as [Hsame | (c & Hone & Hurl)].
  - exists [], {| url := base +:+ endpoint;
                  params := window_params window resolution id;
                  headers := h; timeout := HTTP_READ_TIMEOUT |}.
    simpl. rewrite Hget, Hsame. auto.
  - exists [c], {| url := base +:+ endpoint;
                   params := window_params window resolution id;
                   headers := h; timeout := HTTP_READ_TIMEOUT |}.
    simpl. rewrite Hget, Hone, <- app_assoc. simpl. split; [reflexivity|]. eauto.
Qed.

Lemma measurement_body_ok {R : Type} (base endpoint resolution : string)
    (window : result (string * string)) (loads : string -> result R)
    (wrap : R -> payload) (f : fetch_fn) (w w' : world) (p : payload) :
  base +:+ endpoint = endpoint_of f ->
  f <> ContractDataJson ->
  (window_ <~ lift window;;
   body <~ fetch_window base endpoint resolution window_;;
   response <~ lift (loads body);;
   ret (wrap response)) w = (Ok p, w') ->
  exists earlier own,
    requests w' = requests w ++ earlier ++ [own] /\ sent_for f earlier own.
Proof.
  intros Hendpoint Hnotcontract Hrun.
  apply wbind_ok in Hrun. destruct Hrun as (window_ & w1 & Hwindow & Hrun).
  apply lift_ok in Hwindow. subst w1.
  apply wbind_ok in Hrun. destruct Hrun as (body & w1 & Hfetch & Hrun).
  apply fetch_window_ok in Hfetch.
  destruct Hfetch as (earlier & own & Hsent & Hurl & Hearlier).
  apply wbind_ok in Hrun. destruct Hrun as (response & w2 & Hloads & Hret).
  apply lift_ok in Hloads. subst w2.
  unfold ret in Hret. inversion Hret; subst.
  exists earlier, own. split; [assumption|].
  split; [congruence|].
  destruct Hearlier as [-> | Hone]; [now left | right; now split].
Qed.

(** The body of a memoised method that runs to the end has sent the
    method's own request, after at most one request for the contract data;
    and the contract-data method takes no argument. *)
Lemma fetch_body_ok (f : fetch_fn) (args : key) (w w' : world) (p : payload) :
  fetch_body f args w = (Ok p, w') ->
  (exists earlier own,
      requests w' = requests w ++ earlier ++ [own] /\ sent_for f earlier own)
  /\ (f = ContractDataJson -> args = []).
Proof.
  unfold fetch_body. intros Hrun.
  destruct f; destruct args as [|[n | d] [|[n' | d'] [|? ?]]];
    try (unfold lift in Hrun; discriminate);
    (split; [|try discriminate; reflexivity]).
  - unfold daily_measurements_body in Hrun.
    now apply (measurement_body_ok _ _ _ _ _ _ DailyByMonth) in Hrun.
  - unfold monthly_measurements_body in Hrun.
    apply (measurement_body_ok HELEN_API_URL MEASUREMENTS_ENDPOINT "month"
             (Ok (monthly_window n)) loads_measurement_response Measurements
             MonthlyByYear w w' p); [reflexivity | discriminate | exact Hrun].
  - unfold hourly_measurements_body in Hrun.
    now apply (measurement_body_ok _ _ _ _ _ _ HourlyBetweenDates) in Hrun.
  - unfold hourly_spot_prices_body in Hrun.
    now apply (measurement_body_ok _ _ _ _ _ _ SpotPricesBetweenDates) in Hrun.
  - apply contract_data_body_ok in Hrun. destruct Hrun as (req & Hreq & Hurl).
    exists [], req. split; [assumption|]. split; [assumption | now left].
Qed.

(** *** What a body leaves of its own method's cache *)

Lemma cached_elsewhere (f g : fetch_fn) (k : key) (body : M payload)
    (links : list (TTLCache.link key payload)) :
  g <> f ->
  preserves (fun w => caches w f = links) body ->
  preserves (fun w => caches w f = links) (cached g k body).
Proof.
  intros Hother Hbody w. unfold cached.
  destruct (TTLCache.getitem (monotonic w) k (caches w g)) as [[v|] links'].
  - simpl. split; [lia|]. now rewrite decide_False.
  - destruct (Hbody (set_cache g links' w)) as [Hclock HP].
    destruct (body (set_cache g links' w)) as [[v | e] wb]; simpl in *.
    + destruct (TTLCache.setitem _ _ _ _ _ _); simpl; (split; [assumption|]);
        rewrite ?decide_False by congruence; rewrite decide_False in HP by congruence;
        exact HP.
    + split; [assumption|]. now rewrite decide_False in HP by congruence.
Qed.

Lemma fetch_body_keeps_cache (f : fetch_fn) (args : key) (w : world) :
  monotonic w <= monotonic (snd (fetch_body f args w))
  /\ caches (snd (fetch_body f args w)) f = caches w f.
Proof.
  pose proof (preserves_fetch_body
                (fun w' => caches w' f = caches w f)
                (fun g _ => g <> f)) as Hframe.
  destruct (Hframe) with (f := f) (args := args) (w := w) as [Hclock Hkeeps].
  - intros w1 w2 Hcaches _ _. now rewrite Hcaches.
  - intros w1 c _. simpl. tauto.
  - intros g k body Hother Hbody. now apply cached_elsewhere.
  - destruct (decide (f = ContractDataJson)) as [-> | Hne]; [now right | left; congruence].
  - split; [assumption | now apply Hkeeps].
Qed.

(** *** An item stays until it expires *)

Lemma kept_until_set_cache_other (f g : fetch_fn) (recent : list key)
    (target : TTLCache.link key payload) (links : list (TTLCache.link key payload))
    (w : world) :
  g <> f ->
  kept_until f recent target w -> kept_until f recent target (set_cache g links w).
Proof.
  intros Hother Hkept. unfold kept_until in *. simpl.
  rewrite decide_False by congruence. exact Hkept.
Qed.

Lemma kept_until_cached (f : fetch_fn) (recent : list key)
    (target : TTLCache.link key payload) :
  (List.length recent < maxsize_of f)%nat ->
  forall (g : fetch_fn) (k : key) (body : M payload),
    tolerated f (TTLCache.link_key target) recent g k ->
    preserves (kept_until f recent target) body ->
    preserves (kept_until f recent target) (cached g k body).
Proof.
  intros Hfew g k body Htolerated Hbody w.
  assert (Hclock : monotonic w <= monotonic (snd (cached g k body w))).
  { unfold cached.
    destruct (TTLCache.getitem (monotonic w) k (caches w g)) as [[v|] links]; simpl; [lia|].
    destruct (Hbody (set_cache g links w)) as [Hc _].
    destruct (body (set_cache g links w)) as [[v | e] wb]; simpl in *; [|assumption].
    destruct (TTLCache.setitem _ _ _ _ _ _); simpl; assumption. }
  split; [assumption|]. intros Hkept.
  destruct (decide (g = f)) as [-> | Hother].
  - (* the cache of [f] itself *)
    intros Hlive.
    assert (Hnow : monotonic w < TTLCache.link_expires target) by lia.
    destruct (Hkept Hnow) as [Hwf Hheld].
    revert Hclock Hlive. unfold cached.
    pose proof (getitem_wf (maxsize_of f) (monotonic w) k (caches w f) Hwf) as Hwf'.
    assert (Hheld' : held recent target
                       (snd (TTLCache.getitem (monotonic w) k (caches w f)))
                     /\ (k = TTLCache.link_key target ->
                         fst (TTLCache.getitem (monotonic w) k (caches w f)) <> None)).
    { destruct (decide (k = TTLCache.link_key target)) as [-> | Hkey].
      - destruct (getitem_target (maxsize_of f) recent target (monotonic w)
                    (caches w f) Hwf Hheld Hnow) as [Hhit Hstill].
        split; [assumption|]. intros _. rewrite Hhit. discriminate.
      - split; [|congruence].
        apply (getitem_other (maxsize_of f)); try assumption.
        now apply Htolerated. }
    destruct Hheld' as [Hheld' Hhit].
    destruct (TTLCache.getitem (monotonic w) k (caches w f)) as [[v|] links];
      simpl in Hwf', Hheld', Hhit |- *.
    + intros _ _. rewrite decide_True by reflexivity. now split.
    + assert (Hkey : k <> TTLCache.link_key target) by (intros ->; now apply Hhit).
      destruct (Hbody (set_cache f links w)) as [Hc Hkeeps].
      assert (Hkept_a : kept_until f recent target (set_cache f links w)).
      { intros _. rewrite caches_set_cache_same. now split. }
      specialize (Hkeeps Hkept_a).
      destruct (body (set_cache f links w)) as [[v | e] wb]; simpl in *;
        [|intros _ Hlive; now apply Hkeeps].
      destruct (TTLCache.setitem (maxsize_of f) TTL (monotonic wb) k v (caches wb f))
        as [links'|] eqn:Hset; simpl; [|intros _ Hlive; now apply Hkeeps].
      intros _ Hlive. rewrite decide_True by reflexivity.
      destruct (Hkeeps Hlive) as [Hwf_b Hheld_b].
      destruct (setitem_other (maxsize_of f) TTL (monotonic wb) k v recent target
                  (caches wb f) Hfew Hwf_b Hheld_b Hlive Hkey)
        as (links'' & Hset' & Hwf'' & Hheld'').
      { now apply Htolerated. }
      rewrite Hset in Hset'. inversion Hset'; subst. now split.
  - (* another cache *)
    unfold cached.
    destruct (TTLCache.getitem (monotonic w) k (caches w g)) as [[v|] links]; simpl.
    + now apply kept_until_set_cache_other.
    + destruct (Hbody (set_cache g links w)) as [_ Hkeeps].
      specialize (Hkeeps (kept_until_set_cache_other f g recent target links w Hother Hkept)).
      destruct (body (set_cache g links w)) as [[v | e] wb]; simpl in *; [|assumption].
      destruct (TTLCache.setitem _ _ _ _ _ _); simpl; [|assumption].
      now apply kept_until_set_cache_other.
Qed.

Lemma other_keys_used (f : fetch_fn) (k k' : key) (a : action) (actions : list action) :
  In a actions -> In k' (keys_used f a) -> k' <> k -> k' ∈ other_keys f k actions.
Proof.
  intros Ha Hk' Hother. unfold other_keys.
  apply elem_of_remove_dups, list_elem_of_In, filter_In. split.
  - apply in_flat_map. eauto.
  - now rewrite bool_decide_eq_false_2.
Qed.

Lemma kept_until_run (f : fetch_fn) (args : key) (target : TTLCache.link key payload)
    (actions : list action) (w : world) :
  TTLCache.link_key target = args ->
  (f = ContractDataJson -> args = []) ->
  (List.length (other_keys f args actions) < maxsize_of f)%nat ->
  kept_until f (other_keys f args actions) target w ->
  kept_until f (other_keys f args actions) target (run actions w).
Proof.
  intros Hkey Hcontract Hfew Hkept.
  refine (proj2 (run_preserves
                   (kept_until f (other_keys f args actions) target)
                   (tolerated f args (other_keys f args actions))
                   (fun _ _ => True) _ _ _ _ actions w _) Hkept).
  - intros w1 w2 Hcaches _ Hclock Hk Hlive. rewrite Hcaches. apply Hk. lia.
  - intros w1 c _ Hk. exact Hk.
  - intros g k body Htolerated Hbody.
    apply kept_until_cached; [assumption | now rewrite Hkey | assumption].
  - intros username password _ w1. unfold login.
    destruct (authenticate username password); simpl; (split; [lia | tauto]).
  - assert (Hnone : tolerated f args (other_keys f args actions) ContractDataJson []).
    { intros Hf Hargs. symmetry in Hf. specialize (Hcontract Hf). congruence. }
    apply List.Forall_forall. intros a Ha.
    destruct a as [| | | g k | | | start_date end_date | |]; simpl; auto.
    + split; [|assumption]. intros -> Hother.
      apply (other_keys_used f args k (Call f k)); try assumption.
      simpl. rewrite decide_True by reflexivity. now left.
    + repeat split; try assumption.
      * intros <- Hother.
        apply (other_keys_used _ args _ (CalculateImpact start_date end_date));
          try assumption. simpl. now left.
      * intros <- Hother.
        apply (other_keys_used _ args _ (CalculateImpact start_date end_date));
          try assumption. simpl. now left.
Qed.

(** A call that finds nothing cached and returns has sent its requests and
    left its response in a well-formed store, as the most recently used
    item, to expire one TTL after the call returned. *)
Lemma cold_call_stores (f : fetch_fn) (args : key) (w0 w1 : world) (r : payload) :
  cache_wf (maxsize_of f) (caches w0 f) ->
  TTLCache.peek (monotonic w0) args (caches w0 f) = None ->
  fetch f args w0 = (Ok r, w1) ->
  (exists earlier own,
      requests w1 = requests w0 ++ earlier ++ [own] /\ sent_for f earlier own)
  /\ (f = ContractDataJson -> args = [])
  /\ cache_wf (maxsize_of f) (caches w1 f)
  /\ (forall recent,
        held recent
          {| TTLCache.link_key := args; TTLCache.link_value := r;
             TTLCache.link_expires := monotonic w1 + TTL |}
          (caches w1 f)).
Proof.
  intros Hwf Hcold Hfirst.
  unfold fetch in Hfirst. apply cached_ok in Hfirst.
  destruct Hfirst as [(Hhit & _) | (_ & wb & Hbody & Hrequests & Hclock & Hw1)];
    [congruence|].
  set (links_a := snd (TTLCache.getitem (monotonic w0) args (caches w0 f))) in *.
  destruct (fetch_body_ok _ _ _ _ _ Hbody) as [(earlier & own & Hsent & Hfor) Hcontract].
  destruct (fetch_body_keeps_cache f args (set_cache f links_a w0)) as [_ Hsame].
  rewrite Hbody in Hsame. simpl fst in Hsame. simpl snd in Hsame.
  rewrite caches_set_cache_same in Hsame.
  assert (Hwf_a : cache_wf (maxsize_of f) links_a) by now apply getitem_wf.
  assert (Hpos : (1 <= maxsize_of f)%nat) by (destruct f; simpl; lia).
  destruct (setitem_stores (maxsize_of f) TTL (monotonic wb) args r []
              (caches wb f) Hpos)
    as (links1 & Hset & Hwf1 & (front & back & Hsplit & Hback)); [now rewrite Hsame|].
  rewrite Hset in Hw1.
  split; [|split; [|split]].
  - exists earlier, own. split; [|assumption].
    rewrite Hrequests, Hsent. reflexivity.
  - assumption.
  - now rewrite Hw1, caches_set_cache_same.
  - intros recent. rewrite Hclock, Hw1, caches_set_cache_same.
    exists front, back. split; [assumption|].
    destruct back as [|l back]; [constructor|].
    apply Forall_cons in Hback. destruct Hback as [Hl _].
    now apply elem_of_nil in Hl.
Qed.

(** C8 as amended. Take any of the five memoised methods and any argument
    tuple, and a first call that finds nothing cached and returns a
    response. That call sends exactly one request to the method's own
    endpoint, preceded by at most one request for the contract data (the
    delivery site is resolved through the contract-data method, itself
    memoised). Whatever the client is then asked to do, as long as fewer
    other argument tuples than the capacity of the method's cache are used
    on it and less than the one-hour TTL has passed since the response was
    stored, a second call with the same arguments returns the stored
    response and sends no request at all. *)
Theorem cached_call_repeated (f : fetch_fn) (args : key) (w0 w1 : world)
    (r : payload) (between : list action) :
  cache_wf (maxsize_of f) (caches w0 f) ->
  TTLCache.peek (monotonic w0) args (caches w0 f) = None ->
  fetch f args w0 = (Ok r, w1) ->
  (List.length (other_keys f args between) < maxsize_of f)%nat ->
  monotonic (run between w1) < monotonic w1 + TTL ->
  (exists earlier own,
      requests w1 = requests w0 ++ earlier ++ [own] /\ sent_for f earlier own)
  /\ (exists w2,
        fetch f args (run between w1) = (Ok r, w2)
        /\ requests w2 = requests (run between w1)).
Proof.
  intros Hwf Hcold Hfirst Hfew Hfresh.
  destruct (cold_call_stores f args w0 w1 r Hwf Hcold Hfirst)
    as (Hsent & Hcontract & Hwf1 & Hheld1).
  split; [exact Hsent|].
  set (target := {| TTLCache.link_key := args; TTLCache.link_value := r;
                    TTLCache.link_expires := monotonic w1 + TTL |}) in *.
  assert (Hkept : kept_until f (other_keys f args between) target w1).
  { intros _. split; [assumption | apply Hheld1]. }
  apply (kept_until_run f args target between w1 eq_refl Hcontract Hfew) in Hkept.
  destruct (Hkept Hfresh) as [Hwf2 Hheld2].
  destruct (getitem_target (maxsize_of f) _ target (monotonic (run between w1))
              (caches (run between w1) f) Hwf2 Hheld2 Hfresh) as [Hhit _].
  simpl in Hhit.
  unfold fetch, cached.
  destruct (TTLCache.getitem (monotonic (run between w1)) args
              (caches (run between w1) f)) as [hit links2].
  simpl in Hhit. subst hit.
  eexists. split; reflexivity.
Qed.

(** X1. Once more than the TTL has passed since the response was stored, a
    call with the same arguments that returns has gone upstream again: it
    has sent a new request to the method's endpoint. *)
Theorem cached_call_after_expiry (f : fetch_fn) (args : key) (w0 w1 w2 : world)
    (r r' : payload) (d : N) :
  cache_wf (maxsize_of f) (caches w0 f) ->
  TTLCache.peek (monotonic w0) args (caches w0 f) = None ->
  fetch f args w0 = (Ok r, w1) ->
  TTL < Z.of_N d ->
  fetch f args (elapse d w1) = (Ok r', w2) ->
  exists earlier own,
    requests w2 = requests w1 ++ earlier ++ [own] /\ sent_for f earlier own.
Proof.
  intros Hwf Hcold Hfirst Hlate Hsecond.
  destruct (cold_call_stores f args w0 w1 r Hwf Hcold Hfirst)
    as (_ & _ & [Hnodup _] & Hheld1).
  destruct (Hheld1 []) as (front & back & Hsplit & _).
  assert (Hexpired : TTLCache.peek (monotonic (elapse d w1)) args (caches (elapse d w1) f)
                     = None).
  { simpl. unfold TTLCache.peek. rewrite Hsplit in Hnodup |- *.
    rewrite (find_link_target front back _ Hnodup). simpl.
    replace (monotonic w1 + Z.of_N d <? monotonic w1 + TTL) with false; [reflexivity|].
    symmetry. apply Z.ltb_ge. lia. }
  assert (Hwf1' : cache_wf (maxsize_of f) (caches (elapse d w1) f)).
  { simpl. now destruct (cold_call_stores f args w0 w1 r Hwf Hcold Hfirst)
      as (_ & _ & Hwf1 & _). }
  destruct (cold_call_stores f args (elapse d w1) w2 r' Hwf1' Hexpired Hsecond)
    as ((earlier & own & Hsent & Hfor) & _).
  exists earlier, own. split; [exact Hsent | exact Hfor].
Qed.

(** X2. Every store stays within its capacity, with no key twice, whatever
    is called on the client. *)
Theorem caches_stay_bounded (actions : list action) (w : world) :
  (forall f, cache_wf (maxsize_of f) (caches w f)) ->
  forall f, cache_wf (maxsize_of f) (caches (run actions w) f).
Proof.
  intros Hwf.
  assert (Hall : forall g, cache_wf (maxsize_of g) (caches (run actions w) g)).
  { refine (proj2 (run_preserves
                     (fun w' => forall g, cache_wf (maxsize_of g) (caches w' g))
                     (fun _ _ => True) (fun _ _ => True) _ _ _ _ actions w _) Hwf).
    - intros w1 w2 Hcaches _ _ Hk g. rewrite Hcaches. apply Hk.
    - intros w1 c _ Hk. exact Hk.
    - intros g k body _ Hbody w1.
      assert (Hpos : forall h, (1 <= maxsize_of h)%nat) by (intros []; simpl; lia).
      unfold cached.
      pose proof (fun Hw => getitem_wf (maxsize_of g) (monotonic w1) k (caches w1 g) Hw)
        as Hget.
      destruct (TTLCache.getitem (monotonic w1) k (caches w1 g)) as [hit links].
      simpl in Hget.
      assert (Hstep : (forall h, cache_wf (maxsize_of h) (caches w1 h)) ->
                      forall h, cache_wf (maxsize_of h) (caches (set_cache g links w1) h)).
      { intros Hw h. simpl. destruct (decide (h = g)) as [-> | _]; [now apply Hget | apply Hw]. }
      destruct hit as [v|]; simpl; [split; [lia | exact Hstep]|].
      destruct (Hbody (set_cache g links w1)) as [Hclock Hkeeps].
      destruct (body (set_cache g links w1)) as [[v | e] wb]; simpl in *;
        [|split; [assumption | intros Hw; apply Hkeeps, Hstep, Hw]].
      destruct (TTLCache.setitem (maxsize_of g) TTL (monotonic wb) k v (caches wb g))
        as [links'|] eqn:Hset; simpl;
        [|split; [assumption | intros Hw; apply Hkeeps, Hstep, Hw]].
      split; [assumption|]. intros Hw h. simpl.
      specialize (Hkeeps (Hstep Hw)).
      destruct (decide (h = g)) as [-> | _]; [|apply Hkeeps].
      destruct (setitem_stores (maxsize_of g) TTL (monotonic wb) k v [] (caches wb g)
                  (Hpos g) (Hkeeps g)) as (links'' & Hset' & Hwf'' & _).
      rewrite Hset in Hset'. now inversion Hset'; subst.
    - intros username password _ w1. unfold login.
      destruct (authenticate username password); simpl; (split; [lia | tauto]).
    - apply List.Forall_forall. intros a _. destruct a; simpl; auto. }
  exact Hall.
Qed.

End MemoisedCalls.

Lemma cached_call_repeated_witness :
  let w0 := Scenario.logged_in in
  let w1 := snd (@fetch Scenario.remote DailyByMonth [AInt 1] w0) in
  let between := [Wait 1000000; Call DailyByMonth [AInt 2]; GetContractBasePrice;
                  Call DailyByMonth [AInt 3]; Wait 60000000;
                  Call DailyByMonth [AInt 2]] in
  (exists earlier own,
      requests w1 = requests w0 ++ earlier ++ [own]
      /\ sent_for DailyByMonth earlier own)
  /\ (exists w2,
        @fetch Scenario.remote DailyByMonth [AInt 1] (@run Scenario.remote between w1)
        = (Ok (Measurements Scenario.hourly), w2)
        /\ requests w2 = requests (@run Scenario.remote between w1)).
Proof.
  cbv zeta.
  apply (@cached_call_repeated Scenario.remote DailyByMonth [AInt 1] Scenario.logged_in).
  - split; [constructor | simpl; lia].
  - reflexivity.
  - vm_compute. reflexivity.
  - vm_compute. lia.
  - vm_compute. reflexivity.
Defined.

(** C8 as stated fails on a process that has not fetched its contract data
    yet: two calls for the daily measurements of January, one right after
    the other, both return the response, and two requests have been sent,
    the first one for the contract data. *)
Lemma daily_twice_from_cold :
  let first := @fetch Scenario.remote DailyByMonth [AInt 1] Scenario.logged_in in
  let second := @fetch Scenario.remote DailyByMonth [AInt 1] (snd first) in
  fst first = Ok (Measurements Scenario.hourly)
  /\ fst second = Ok (Measurements Scenario.hourly)
  /\ requests Scenario.logged_in = []
  /\ map url (requests (snd second))
     = [endpoint_of ContractDataJson; endpoint_of DailyByMonth]
  /\ List.length (requests (snd second)) = 2%nat.
Proof. cbv zeta. repeat split; vm_compute; reflexivity. Qed.

Lemma cached_call_after_expiry_witness :
  let w0 := Scenario.logged_in in
  let w1 := snd (@fetch Scenario.remote DailyByMonth [AInt 1] w0) in
  let w2 := snd (@fetch Scenario.remote DailyByMonth [AInt 1] (elapse 3600000001 w1)) in
  exists earlier own,
    requests w2 = requests w1 ++ earlier ++ [own] /\ sent_for DailyByMonth earlier own.
Proof.
  cbv zeta.
  apply (@cached_call_after_expiry Scenario.remote DailyByMonth [AInt 1]
           Scenario.logged_in _ _ (Measurements Scenario.hourly)
           (Measurements Scenario.hourly) 3600000001).
  - split; [constructor | simpl; lia].
  - reflexivity.
  - vm_compute. reflexivity.
  - vm_compute. reflexivity.
  - vm_compute. reflexivity.
Defined.

Lemma caches_stay_bounded_witness :
  let actions := [Call DailyByMonth [AInt 1]; Call DailyByMonth [AInt 2];
                  Call DailyByMonth [AInt 3]; Call DailyByMonth [AInt 4];
                  Call DailyByMonth [AInt 5]; Call DailyByMonth [AInt 6]] in
  cache_wf (maxsize_of DailyByMonth)
    (caches (@run Scenario.remote actions Scenario.logged_in) DailyByMonth).
Proof.
  cbv zeta.
  apply (@caches_stay_bounded Scenario.remote).
  intros f. split; [constructor | simpl; lia].
Defined.

(** * Further properties *)

(** ** What every call keeps true of the requests and of the session *)

Section Audit.

Context `{Remote}.

Lemma keeps_ret (P : world -> Prop) {A : Type} (a : A) : keeps P (ret a).
Proof. intros w Hw. exact Hw. Qed.

Lemma keeps_lift (P : world -> Prop) {A : Type} (r : result A) : keeps P (lift r).
Proof. intros w Hw. exact Hw. Qed.

Lemma keeps_wbind (P : world -> Prop) {A B : Type} (m : M A) (k : A -> M B) :
  keeps P m -> (forall a, keeps P (k a)) -> keeps P (wbind m k).
Proof.
  intros Hm Hk w Hw. unfold wbind. specialize (Hm w Hw).
  destruct (m w) as [[a | e] w1]; simpl in *; [now apply Hk | assumption].
Qed.

Variable P : world -> Prop.
Variable login_allowed : string -> string -> Prop.

Hypothesis K_cache : forall f links w, P w -> P (set_cache f links w).

Hypothesis K_contract :
  forall w j, P w ->
    P (set_self {| latest_login_time := latest_login_time (self w);
                   session := session (self w);
                   contract_data_dict := Some j |} w).

Hypothesis K_elapse : forall d w, P w -> P (elapse d w).

Hypothesis K_login :
  forall username password, login_allowed username password ->
    keeps P (login username password).

Hypothesis K_send :
  forall req w s, session (self w) = Some s ->
    client_request (access_token s) req -> P w -> P (snd (http_get req w)).

Lemma keeps_cached (f : fetch_fn) (k : key) (body : M payload) :
  keeps P body -> keeps P (cached f k body).
Proof.
  intros Hbody w Hw. unfold cached.
  destruct (TTLCache.getitem (monotonic w) k (caches w f)) as [[v|] links]; simpl.
  - now apply K_cache.
  - specialize (Hbody (set_cache f links w) (K_cache f links w Hw)).
    destruct (body (set_cache f links w)) as [[v | e] wb]; simpl in *; [|assumption].
    destruct (TTLCache.setitem _ _ _ _ _ _); simpl; [now apply K_cache | assumption].
Qed.

Lemma keeps_contract_data_body : keeps P contract_data_body.
Proof.
  intros w Hw. unfold contract_data_body, wbind, api_request_headers, wbind,
    get_api_access_token, ret.
  destruct (session (self w)) as [s|] eqn:Hs; simpl; [|assumption].
  set (req := {| url := HELEN_API_URL +:+ CONTRACT_ENDPOINT; params := [];
                 headers := [("Authorization", "Bearer " +:+ access_token s);
                             ("Accept", "application/json")];
                 timeout := HTTP_READ_TIMEOUT |}).
  assert (Hsent : P (snd (http_get req w))).
  { apply (K_send req w s Hs); [|assumption].
    split; [reflexivity|]. split; [reflexivity|]. left. now split. }
  destruct (http_get req w) as [[body | e] w1]; simpl in *; [|assumption].
  unfold lift. destruct (loads_json body) as [j | e]; simpl; [|assumption].
  now apply K_contract.
Qed.

Lemma keeps_get_contract_data_json : keeps P get_contract_data_json.
Proof.
  unfold get_contract_data_json. apply keeps_wbind.
  - apply keeps_cached, keeps_contract_data_body.
  - intros [r | r | j]; first [apply keeps_ret | apply keeps_lift].
Qed.

Lemma keeps_get_delivery_site_id : keeps P get_delivery_site_id.
Proof.
  unfold get_delivery_site_id. apply keeps_wbind;
    [apply keeps_get_contract_data_json | intros j; apply keeps_lift].
Qed.

Lemma keeps_get_contract_base_price : keeps P get_contract_base_price.
Proof.
  unfold get_contract_base_price. apply keeps_wbind;
    [apply keeps_get_contract_data_json | intros j; apply keeps_lift].
Qed.

Lemma keeps_fetch_window (base endpoint resolution : string) (window : string * string) :
  (base +:+ endpoint = HELEN_API_URL +:+ MEASUREMENTS_ENDPOINT
   /\ (resolution = "day" \/ resolution = "month" \/ resolution = "hour"))%string
  \/ (base +:+ endpoint = HELEN_API_URL_V8 +:+ SPOT_PRICES_ENDPOINT
      /\ resolution = "hour"%string) ->
  keeps P (fetch_window base endpoint resolution window).
Proof.
  intros Hwhere w Hw. unfold fetch_window, wbind.
  pose proof (keeps_get_delivery_site_id w Hw) as Hw1.
  destruct (get_delivery_site_id w) as [[id | e] w1]; simpl in *; [|assumption].
  unfold api_request_headers, wbind, get_api_access_token, ret.
  destruct (session (self w1)) as [s|] eqn:Hs; simpl; [|assumption].
  apply (K_send _ w1 s Hs); [|assumption].
  split; [reflexivity|]. split; [reflexivity|]. right.
  exists window, resolution, id. simpl. split; [reflexivity | exact Hwhere].
Qed.

Lemma keeps_measurement_body {R : Type} (base endpoint resolution : string)
    (window : result (string * string)) (loads : string -> result R)
    (wrap : R -> payload) :
  (base +:+ endpoint = HELEN_API_URL +:+ MEASUREMENTS_ENDPOINT
   /\ (resolution = "day" \/ resolution = "month" \/ resolution = "hour"))%string
  \/ (base +:+ endpoint = HELEN_API_URL_V8 +:+ SPOT_PRICES_ENDPOINT
      /\ resolution = "hour"%string) ->
  keeps P (window_ <~ lift window;;
           body <~ fetch_window base endpoint resolution window_;;
           response <~ lift (loads body);;
           ret (wrap response)).
Proof.
  intros Hwhere.
  apply keeps_wbind; [apply keeps_lift | intros window_].
  apply keeps_wbind; [now apply keeps_fetch_window | intros body].
  apply keeps_wbind; [apply keeps_lift | intros response]. apply keeps_ret.
Qed.

Lemma keeps_fetch_body (f : fetch_fn) (args : key) : keeps P (fetch_body f args).
Proof.
  unfold fetch_body.
  destruct f; destruct args as [|[n | d] [|[n' | d'] [|? ?]]];
    try apply keeps_lift; try apply keeps_contract_data_body.
  - intros w. unfold daily_measurements_body.
    apply (keeps_measurement_body HELEN_API_URL MEASUREMENTS_ENDPOINT "day"
             (daily_window (today w) (today w) n) loads_measurement_response Measurements).
    left. split; [reflexivity | now left].
  - unfold monthly_measurements_body.
    apply (keeps_measurement_body HELEN_API_URL MEASUREMENTS_ENDPOINT "month"
             (Ok (monthly_window n)) loads_measurement_response Measurements).
    left. split; [reflexivity | right; now left].
  - unfold hourly_measurements_body. apply keeps_measurement_body.
    left. split; [reflexivity | right; now right].
  - unfold hourly_spot_prices_body. apply keeps_measurement_body.
    right. split; reflexivity.
Qed.

Lemma keeps_fetch (f : fetch_fn) (args : key) : keeps P (fetch f args).
Proof. unfold fetch. apply keeps_cached, keeps_fetch_body. Qed.

Lemma keeps_calculate_impact (start_date end_date : date) :
  keeps P (calculate_impact_of_usage_between_dates start_date end_date).
Proof.
  unfold calculate_impact_of_usage_between_dates,
    get_hourly_spot_prices_between_dates, get_hourly_measurements_between_dates.
  apply keeps_wbind.
  { apply keeps_wbind; [apply keeps_fetch | intros p].
    unfold as_spot_prices. destruct p; first [apply keeps_ret | apply keeps_lift]. }
  intros spot_prices. apply keeps_wbind.
  { apply keeps_wbind; [apply keeps_fetch | intros p].
    unfold as_measurements. destruct p; first [apply keeps_ret | apply keeps_lift]. }
  intros measured.
  apply keeps_wbind; [apply keeps_lift | intros first_electricity]. apply keeps_lift.
Qed.

Lemma keeps_step (a : action) (w : world) :
  match a with
  | Login username password => login_allowed username password
  | _ => True
  end ->
  P w -> P (step a w).
Proof.
  destruct a as [username password | | | f args | | | start_date end_date | | d];
    simpl; intros Hallowed Hw.
  - now apply K_login.
  - assumption.
  - assumption.
  - now apply keeps_fetch.
  - now apply keeps_get_delivery_site_id.
  - now apply keeps_get_contract_base_price.
  - now apply keeps_calculate_impact.
  - unfold get_api_access_token. now destruct (session (self w)).
  - now apply K_elapse.
Qed.

Lemma keeps_run (actions : list action) (w : world) :
  logins_among login_allowed actions -> P w -> P (run actions w).
Proof.
  intros Hall. revert w.
  induction Hall as [|a actions Ha _ IH]; intros w Hw; simpl; [assumption|].
  apply IH. now apply keeps_step.
Qed.

End Audit.

Section AuditProperties.

Context `{Remote}.

Lemma refused_logins (actions : list action) :
  forallb (fun a => negb (login_succeeds a)) actions = true ->
  logins_among (fun username password =>
                  match authenticate username password with
                  | Ok _ => False
                  | Raise _ => True
                  end) actions.
Proof.
  intros Hnologin. rewrite forallb_forall in Hnologin.
  apply List.Forall_forall. intros a Ha. specialize (Hnologin a Ha).
  destruct a; simpl in *; auto.
  destruct (authenticate username password); [discriminate | exact I].
Qed.

Lemma any_logins (actions : list action) : logins_among (fun _ _ => True) actions.
Proof. apply List.Forall_forall. intros a _. now destruct a. Qed.

(** X7. A client without a session sends nothing: as long as no login has
    succeeded, whatever is called on it, the list of requests sent stays as
    it was (the access token is asked of the absent session before any
    request is made). *)
Theorem no_request_before_login (actions : list action) (w : world) :
  session (self w) = None ->
  forallb (fun a => negb (login_succeeds a)) actions = true ->
  requests (run actions w) = requests w /\ session (self (run actions w)) = None.
Proof.
  intros Hnone Hnologin.
  assert (Hkept : session (self (run actions w)) = None
                  /\ requests (run actions w) = requests w).
  { apply (keeps_run
             (fun w' => session (self w') = None /\ requests w' = requests w)
             (fun username password =>
                match authenticate username password with
                | Ok _ => False
                | Raise _ => True
                end)).
    - intros f links w1 Hw1. exact Hw1.
    - intros w1 j Hw1. exact Hw1.
    - intros d w1 Hw1. exact Hw1.
    - intros username password Hrefused w1 Hw1. unfold login.
      destruct (authenticate username password); [contradiction | exact Hw1].
    - intros req w1 s Hs _ [Hnone1 _]. congruence.
    - now apply refused_logins.
    - now split. }
  tauto.
Qed.

(** X8. Every request the client sends is one of its own: to the contract
    URL with no parameter, or to one of the two measurement URLs with the
    five query parameters and a resolution of day, month or hour; always
    with the bearer and accept headers and the read timeout. Whatever is
    called, the list of requests sent holds nothing else. *)
Theorem requests_stay_well_formed (actions : list action) (w : world) :
  Forall (fun req => exists token, client_request token req) (requests w) ->
  Forall (fun req => exists token, client_request token req) (requests (run actions w)).
Proof.
  intros Hw.
  apply (keeps_run
           (fun w' => Forall (fun req => exists token, client_request token req)
                        (requests w'))
           (fun _ _ => True)); try assumption.
  - intros f links w1 Hw1. exact Hw1.
  - intros w1 j Hw1. exact Hw1.
  - intros d w1 Hw1. exact Hw1.
  - intros username password _ w1 Hw1. unfold login.
    now destruct (authenticate username password).
  - intros req w1 s Hs Hreq Hw1. unfold http_get.
    destruct (server (requests w1) (monotonic w1) req) as [body took]. simpl.
    apply Forall_app. split; [assumption|]. repeat constructor. eauto.
  - apply any_logins.
Qed.

Lemma login_time_kept (t : Z) (actions : list action) (w : world) :
  latest_login_time (self w) = Some t ->
  forallb (fun a => negb (login_succeeds a)) actions = true ->
  latest_login_time (self (run actions w)) = Some t.
Proof.
  intros Hlogin Hnologin.
  apply (keeps_run
           (fun w' => latest_login_time (self w') = Some t)
           (fun username password =>
              match authenticate username password with
              | Ok _ => False
              | Raise _ => True
              end)); try assumption.
  - intros f links w1 Hw1. exact Hw1.
  - intros w1 j Hw1. exact Hw1.
  - intros d w1 Hw1. exact Hw1.
  - intros username password Hrefused w1 Hw1. unfold login.
    destruct (authenticate username password); [contradiction | exact Hw1].
  - intros req w1 s _ _ Hw1. unfold http_get.
    now destruct (server (requests w1) (monotonic w1) req).
  - now apply refused_logins.
Qed.

(** X9. After a login that succeeds, whatever else is called on the client
    (fetches, refused logins, [close], waits), the validity check depends on
    the wall clock alone: it answers true exactly while the clock lies
    within the hour that follows that login. In particular [close] does not
    end the validity, and no fetch prolongs it. *)
Theorem session_after_login (username password : string) (s : HelenSession)
    (actions : list action) (w : world) :
  authenticate username password = Ok s ->
  forallb (fun a => negb (login_succeeds a)) actions = true ->
  US_PER_HOUR <= wall_clock (run actions (snd (login username password w)))
              <= DATETIME_MAX ->
  exists answer : bool,
    is_session_valid (run actions (snd (login username password w)))
    = (Ok answer, run actions (snd (login username password w)))
    /\ (answer = true
        <-> wall_clock w
            <= wall_clock (run actions (snd (login username password w)))
            <= wall_clock w + US_PER_HOUR).
Proof.
  intros Hlogin Hnologin Hclock.
  set (w1 := run actions (snd (login username password w))) in *.
  assert (Htime : latest_login_time (self w1) = Some (wall_clock w)).
  { apply login_time_kept; [|assumption]. unfold login. now rewrite Hlogin. }
  exists ((wall_clock w <=? wall_clock w1) && (wall_clock w1 <=? wall_clock w + US_PER_HOUR)).
  split.
  - unfold is_session_valid. rewrite Htime.
    now rewrite (session_valid_at_spec _ _ Hclock).
  - rewrite andb_true_iff, !Z.leb_le. tauto.
Qed.

End AuditProperties.

Lemma no_request_before_login_witness :
  let actions := [Login "user" "password"; Call DailyByMonth [AInt 1];
                  GetContractBasePrice; Wait 5000000;
                  CalculateImpact {| year := 2022; month := 12; day := 1 |}
                                  {| year := 2022; month := 12; day := 31 |}] in
  requests (@run Scenario.closed_remote actions Scenario.fresh) = requests Scenario.fresh
  /\ session (self (@run Scenario.closed_remote actions Scenario.fresh)) = None.
Proof.
  cbv zeta.
  apply (@no_request_before_login Scenario.closed_remote); reflexivity.
Defined.

Lemma requests_stay_well_formed_witness :
  let actions := [Call DailyByMonth [AInt 1]; GetContractBasePrice;
                  Call MonthlyByYear [AInt 2026]; Login "other" "password";
                  CalculateImpact {| year := 2022; month := 12; day := 1 |}
                                  {| year := 2022; month := 12; day := 31 |}] in
  Forall (fun req => exists token, @client_request Scenario.remote token req)
         (requests (@run Scenario.remote actions Scenario.logged_in)).
Proof.
  cbv zeta.
  apply (@requests_stay_well_formed Scenario.remote). constructor.
Defined.

Lemma session_after_login_witness :
  let actions := [Call DailyByMonth [AInt 1]; Close; Wait 1800000000] in
  let w1 := @run Scenario.remote actions
              (snd (@login Scenario.remote "user" "password" Scenario.fresh)) in
  exists answer : bool,
    is_session_valid w1 = (Ok answer, w1)
    /\ (answer = true
        <-> wall_clock Scenario.fresh <= wall_clock w1
            <= wall_clock Scenario.fresh + US_PER_HOUR).
Proof.
  cbv zeta.
  apply (@session_after_login Scenario.remote "user" "password"
           {| access_token := "token" |}).
  - reflexivity.
  - reflexivity.
  - split; apply Z.leb_le; vm_compute; reflexivity.
Defined.

(** ** Lookups, stores and failures *)

Section StoreLookups.

Context {K V : Type} `{EqDecision K}.

Import TTLCache.

Local Abbreviation item := (TTLCache.link K V).

Lemma find_filter_implied (p q : item -> bool) (links : list item) :
  (forall x, p x = true -> q x = true) ->
  List.find p (List.filter q links) = List.find p links.
Proof.
  intros Himplied. induction links as [|x links IH]; simpl; [reflexivity|].
  destruct (q x) eqn:Eq; simpl.
  - destruct (p x); [reflexivity | exact IH].
  - destruct (p x) eqn:Ep; [|exact IH].
    apply Himplied in Ep. congruence.
Qed.

Lemma find_none_filtered (p : item -> bool) (links : list item) :
  List.find p (List.filter (fun x => negb (p x)) links) = None.
Proof.
  induction links as [|x links IH]; simpl; [reflexivity|].
  destruct (p x) eqn:Ep; simpl; [exact IH|]. now rewrite Ep.
Qed.

Lemma find_app_none (p : item -> bool) (front back : list item) :
  List.find p front = None -> List.find p (front ++ back) = List.find p back.
Proof.
  induction front as [|x front IH]; simpl; [reflexivity|].
  destruct (p x); [discriminate | exact IH].
Qed.

Lemma find_app_some (p : item -> bool) (front back : list item) (l : item) :
  List.find p front = Some l -> List.find p (front ++ back) = Some l.
Proof.
  induction front as [|x front IH]; simpl; [discriminate|].
  destruct (p x); [tauto | exact IH].
Qed.

(** The item appended under a key is the one found under that key. *)
Lemma find_link_appended (l : item) (links : list item) :
  find_link (link_key l) (remove_key (link_key l) links ++ [l]) = Some l.
Proof.
  unfold find_link, remove_key.
  rewrite find_app_none by apply find_none_filtered.
  simpl. unfold has_key. now rewrite bool_decide_eq_true_2.
Qed.

(** Moving one key's item to the end changes no key's item. *)
Lemma find_link_after_move (k k' : K) (l : item) (links : list item) :
  find_link k links = Some l ->
  find_link k' (remove_key k links ++ [l]) = find_link k' links.
Proof.
  intros Hfound. destruct (find_link_key _ _ _ Hfound) as [_ Hkey]. subst k.
  destruct (decide (k' = link_key l)) as [-> | Hother].
  - now rewrite find_link_appended.
  - unfold find_link, remove_key in *.
    assert (Hsame : List.find (has_key k')
                      (List.filter (fun x => negb (has_key (link_key l) x)) links)
                    = List.find (has_key k') links).
    { apply find_filter_implied. intros x Hx. unfold has_key in *.
      apply bool_decide_eq_true in Hx. subst k'.
      now rewrite bool_decide_eq_false_2 by congruence. }
    destruct (List.find (has_key k') links) as [l'|] eqn:Hfind.
    + now apply find_app_some.
    + rewrite find_app_none by assumption. simpl.
      unfold has_key. now rewrite bool_decide_eq_false_2 by congruence.
Qed.

(** A lookup changes what no later lookup would return. *)
Lemma peek_after_getitem (time time' : Z) (k k' : K) (links : list item) :
  peek time' k' (snd (getitem time k links)) = peek time' k' links.
Proof.
  unfold getitem, peek.
  destruct (find_link k links) as [l|] eqn:Hfound; simpl; [|reflexivity].
  now rewrite (find_link_after_move k k' l links Hfound).
Qed.

Lemma peek_later (time time' : Z) (k : K) (links : list item) :
  time <= time' -> peek time k links = None -> peek time' k links = None.
Proof.
  unfold peek. intros Hlater. destruct (find_link k links) as [l|]; [|reflexivity].
  destruct (time <? link_expires l) eqn:E; [discriminate|]. intros _.
  apply Z.ltb_ge in E.
  replace (time' <? link_expires l) with false; [reflexivity|].
  symmetry. apply Z.ltb_ge. lia.
Qed.

(** What has just been stored is found, as long as the time to live is not
    over. *)
Lemma peek_after_setitem (maxsize : nat) (ttl time time' : Z) (k : K) (v : V)
    (links links' : list item) :
  setitem maxsize ttl time k v links = Ok links' ->
  time' < time + ttl ->
  peek time' k links' = Some v.
Proof.
  unfold setitem. destruct (maxsize <? 1)%nat; [discriminate|].
  intros Hstored Hlive. inversion Hstored; subst. unfold peek.
  set (new := {| link_key := k; link_value := v; link_expires := time + ttl |}).
  rewrite (find_link_appended new). simpl.
  replace (time' <? time + ttl) with true; [reflexivity|].
  symmetry. now apply Z.ltb_lt.
Qed.

(** What a lookup has just returned, the same lookup returns again. *)
Lemma peek_after_hit (time : Z) (k : K) (v : V) (links : list item) :
  fst (getitem time k links) = Some v ->
  peek time k (snd (getitem time k links)) = Some v.
Proof.
  intros Hhit. rewrite peek_after_getitem, <- getitem_peek. exact Hhit.
Qed.

End StoreLookups.

Section Failures.

Context `{Remote}.

Lemma cached_raise (f : fetch_fn) (k : key) (body : M payload) (w w' : world) (e : exn) :
  cached f k body w = (Raise e, w') ->
  TTLCache.peek (monotonic w) k (caches w f) = None
  /\ body (set_cache f (snd (TTLCache.getitem (monotonic w) k (caches w f))) w)
     = (Raise e, w').
Proof.
  unfold cached. rewrite <- getitem_peek.
  destruct (TTLCache.getitem (monotonic w) k (caches w f)) as [[v|] links]; simpl;
    [discriminate|].
  destruct (body (set_cache f links w)) as [[v | e'] wb].
  - destruct (TTLCache.setitem _ _ _ _ _ _); discriminate.
  - intros Hrun. inversion Hrun; subst. now split.
Qed.

(** A hit: the stored value is returned, nothing is sent and no time
    passes. *)
Lemma cached_hit (f : fetch_fn) (k : key) (body : M payload) (w : world) (p : payload) :
  TTLCache.peek (monotonic w) k (caches w f) = Some p ->
  exists w', cached f k body w = (Ok p, w')
             /\ requests w' = requests w /\ monotonic w' = monotonic w
             /\ self w' = self w.
Proof.
  unfold cached. rewrite <- getitem_peek.
  destruct (TTLCache.getitem (monotonic w) k (caches w f)) as [hit links]; simpl.
  intros ->. eexists. repeat split.
Qed.

Lemma TTL_positive : 0 < TTL.
Proof. reflexivity. Qed.

(** After a memoised call has returned, its answer is in the store. *)
Lemma cached_leaves_live (f : fetch_fn) (k : key) (body : M payload)
    (w w' : world) (p : payload) :
  cached f k body w = (Ok p, w') ->
  TTLCache.peek (monotonic w') k (caches w' f) = Some p.
Proof.
  unfold cached.
  pose proof (peek_after_hit (monotonic w) k (V := payload)) as Hhit.
  destruct (TTLCache.getitem (monotonic w) k (caches w f)) as [[v|] links] eqn:Hget;
    simpl.
  - intros Hrun. inversion Hrun; subst. simpl. rewrite decide_True by reflexivity.
    specialize (Hhit p (caches w f)). rewrite Hget in Hhit. now apply Hhit.
  - destruct (body (set_cache f links w)) as [[v | e] wb]; [|discriminate].
    assert (Hpos : (maxsize_of f <? 1)%nat = false) by now destruct f.
    destruct (TTLCache.setitem (maxsize_of f) TTL (monotonic wb) k v (caches wb f))
      as [links'|] eqn:Hset.
    + intros Hrun. inversion Hrun; subst. simpl. rewrite decide_True by reflexivity.
      apply (peek_after_setitem _ _ _ _ _ _ _ _ Hset). pose proof TTL_positive. lia.
    + unfold TTLCache.setitem in Hset. rewrite Hpos in Hset. discriminate.
Qed.

(** X10. Read your own write: when a memoised method has returned a
    response, the same call made right away returns the same response and
    sends nothing - whether the first call found it cached or fetched it,
    and whatever else the caches hold. *)
Theorem repeated_call_hits (f : fetch_fn) (args : key) (w w1 : world) (r : payload) :
  fetch f args w = (Ok r, w1) ->
  exists w2, fetch f args w1 = (Ok r, w2)
             /\ requests w2 = requests w1 /\ monotonic w2 = monotonic w1.
Proof.
  intros Hfirst. unfold fetch in *.
  apply cached_leaves_live in Hfirst.
  destruct (cached_hit f args (fetch_body f args) w1 r Hfirst)
    as (w2 & Hsecond & Hrequests & Hclock & _).
  exists w2. auto.
Qed.

End Failures.

Section FailedCalls.

Context `{Remote}.

(** X11. A call that fails is not remembered: when a memoised method raises,
    its cache answers every lookup as it did before the call, and the next
    call with the same arguments that succeeds, however much later, has run
    the method again and sent its request. *)
Theorem failed_call_not_remembered (f : fetch_fn) (args : key) (w0 w1 : world)
    (e : exn) :
  fetch f args w0 = (Raise e, w1) ->
  (forall time k,
      TTLCache.peek time k (caches w1 f) = TTLCache.peek time k (caches w0 f))
  /\ (forall d r w2,
        fetch f args (elapse d w1) = (Ok r, w2) ->
        exists earlier own,
          requests w2 = requests w1 ++ earlier ++ [own] /\ sent_for f earlier own).
Proof.
  intros Hfailed. unfold fetch in *.
  destruct (cached_raise _ _ _ _ _ _ Hfailed) as [Hcold Hbody].
  set (looked := set_cache f (snd (TTLCache.getitem (monotonic w0) args (caches w0 f))) w0)
    in Hbody.
  destruct (fetch_body_keeps_cache f args looked) as [Hclock Hsame].
  rewrite Hbody in Hclock, Hsame. simpl snd in Hclock, Hsame.
  unfold looked in Hsame. rewrite caches_set_cache_same in Hsame.
  assert (Hpeek : forall time k,
             TTLCache.peek time k (caches w1 f) = TTLCache.peek time k (caches w0 f)).
  { intros time k. rewrite Hsame. apply peek_after_getitem. }
  split; [exact Hpeek|].
  intros d r w2 Hagain.
  apply cached_ok in Hagain. simpl in Hagain.
  destruct Hagain as [(Hhit & _) | (_ & wb & Hrun & Hrequests & _)].
  - rewrite Hpeek in Hhit.
    rewrite (peek_later (monotonic w0) (monotonic w1 + Z.of_N d)) in Hhit;
      [discriminate | | exact Hcold].
    unfold looked in Hclock. simpl in Hclock. lia.
  - apply fetch_body_ok in Hrun. destruct Hrun as [(earlier & own & Hsent & Hfor) _].
    exists earlier, own. split; [|exact Hfor].
    rewrite Hrequests, Hsent. reflexivity.
Qed.

Lemma cached_cold_raise (f : fetch_fn) (k : key) (body : M payload) (w w' : world)
    (e : exn) :
  TTLCache.peek (monotonic w) k (caches w f) = None ->
  body (set_cache f (snd (TTLCache.getitem (monotonic w) k (caches w f))) w)
  = (Raise e, w') ->
  cached f k body w = (Raise e, w').
Proof.
  unfold cached. rewrite <- getitem_peek.
  destruct (TTLCache.getitem (monotonic w) k (caches w f)) as [hit links]; simpl.
  intros -> ->. reflexivity.
Qed.

Lemma daily_window_month_out_of_range (first_reading second_reading : date) (m : Z) :
  ~ (1 <= m <= 12) ->
  daily_window first_reading second_reading m = Raise (month_refusal m).
Proof.
  intros Hm. unfold daily_window, replace, keyword, as_c_int, month_refusal.
  destruct ((C_INT_MIN <=? m) && (m <=? C_INT_MAX)); [|reflexivity].
  change ((C_INT_MIN <=? 1) && (1 <=? C_INT_MAX)) with true.
  cbn [mbind result_bind bind]. unfold make_date.
  destruct (valid_ymd (year first_reading) m 1) eqn:Hv; [|reflexivity].
  apply valid_ymd_spec in Hv. tauto.
Qed.

(** X12. Asking for the daily measurements of a month outside 1..12 fails
    before anything is done: with [ValueError] for a month number that a C
    [int] holds (from -2^31 to 2^31 - 1), with [OverflowError] for one
    beyond. Unless the cache already answers for that month number, no
    contract data is fetched, no request is sent and the client is left as
    it was. *)
Theorem daily_month_out_of_range (m : Z) (w : world) :
  ~ (1 <= m <= 12) ->
  TTLCache.peek (monotonic w) [AInt m] (caches w DailyByMonth) = None ->
  exists w',
    get_daily_measurements_by_month m w
    = (Raise (if (- 2 ^ 31 <=? m) && (m <=? 2 ^ 31 - 1)
              then ValueError else OverflowError), w')
    /\ requests w' = requests w
    /\ self w' = self w
    /\ wall_clock w' = wall_clock w.
Proof.
  intros Hm Hcold.
  unfold get_daily_measurements_by_month, wbind, fetch.
  set (looked := set_cache DailyByMonth
                    (snd (TTLCache.getitem (monotonic w) [AInt m]
                            (caches w DailyByMonth))) w).
  rewrite (cached_cold_raise DailyByMonth [AInt m] _ w looked (month_refusal m) Hcold).
  - exists looked. repeat split.
  - cbn [fetch_body]. unfold daily_measurements_body, wbind, lift.
    rewrite daily_window_month_out_of_range by exact Hm. reflexivity.
Qed.

(** X13. The contract data is fetched once for all its readers: after
    [get_contract_data_json] has returned, the delivery site id and the base
    price are both read from that same answer, and reading them sends
    nothing. *)
Theorem contract_data_shared (w w1 : world) (contract_data : json) :
  get_contract_data_json w = (Ok contract_data, w1) ->
  (exists w2, get_delivery_site_id w1 = (delivery_site_id_of contract_data, w2)
              /\ requests w2 = requests w1)
  /\ (exists w2, get_contract_base_price w1 = (contract_base_price contract_data, w2)
                 /\ requests w2 = requests w1).
Proof.
  intros Hfirst. unfold get_contract_data_json in Hfirst.
  apply wbind_ok in Hfirst. destruct Hfirst as (p & wa & Hcached & Hshape).
  destruct p as [r | r | j]; try discriminate.
  inversion Hshape; subst. clear Hshape.
  apply cached_leaves_live in Hcached.
  destruct (cached_hit ContractDataJson [] contract_data_body w1 _ Hcached)
    as (w2 & Hagain & Hrequests & _).
  split; exists w2; (split; [|exact Hrequests]).
  - unfold get_delivery_site_id, get_contract_data_json, wbind. rewrite Hagain.
    reflexivity.
  - unfold get_contract_base_price, get_contract_data_json, wbind. rewrite Hagain.
    reflexivity.
Qed.

End FailedCalls.

Lemma failed_call_not_remembered_witness :
  let w1 := snd (@fetch Scenario.remote DailyByMonth [AInt 11] Scenario.fresh) in
  (forall time k,
      TTLCache.peek time k (caches w1 DailyByMonth)
      = TTLCache.peek time k (caches Scenario.fresh DailyByMonth))
  /\ (forall d r w2,
        @fetch Scenario.remote DailyByMonth [AInt 11] (elapse d w1) = (Ok r, w2) ->
        exists earlier own,
          requests w2 = requests w1 ++ earlier ++ [own]
          /\ sent_for DailyByMonth earlier own).
Proof.
  intros w1.
  apply (@failed_call_not_remembered Scenario.remote DailyByMonth [AInt 11] Scenario.fresh w1
           AttributeError).
  reflexivity.
Defined.

Lemma daily_month_out_of_range_witness :
  (exists w',
      @get_daily_measurements_by_month Scenario.remote 13 Scenario.logged_in
      = (Raise ValueError, w')
      /\ requests w' = requests Scenario.logged_in
      /\ self w' = self Scenario.logged_in
      /\ wall_clock w' = wall_clock Scenario.logged_in)
  /\ (exists w',
        @get_daily_measurements_by_month Scenario.remote (2 ^ 31) Scenario.logged_in
        = (Raise OverflowError, w')
        /\ requests w' = requests Scenario.logged_in
        /\ self w' = self Scenario.logged_in
        /\ wall_clock w' = wall_clock Scenario.logged_in).
Proof.
  split.
  - apply (@daily_month_out_of_range Scenario.remote 13 Scenario.logged_in);
      [lia | reflexivity].
  - apply (@daily_month_out_of_range Scenario.remote (2 ^ 31) Scenario.logged_in);
      [lia | reflexivity].
Defined.

Lemma contract_data_shared_witness :
  let w1 := snd (@get_contract_data_json Scenario.remote Scenario.logged_in) in
  (exists w2, @get_delivery_site_id Scenario.remote w1 = (Ok (JNum 7), w2)
              /\ requests w2 = requests w1)
  /\ (exists w2, @get_contract_base_price Scenario.remote w1 = (Ok (JNum 5), w2)
                 /\ requests w2 = requests w1).
Proof.
  intros w1.
  apply (@contract_data_shared Scenario.remote Scenario.logged_in w1 Scenario.contract).
  reflexivity.
Defined.

(** ** The base price, case by case *)

Section BasePriceCases.

Local Abbreviation flag_test := (fun component : json => item component "is_base_price").

Lemma item_never_stops (j : json) (key : string) : item j key <> Raise StopIteration.
Proof.
  destruct j as [| | | | |fields]; simpl; try discriminate.
  destruct (fields !! key); discriminate.
Qed.

Lemma next_filter_found (components : list json) (c : json) :
  next_filter flag_test components = Ok c
  <-> exists before after,
        components = before ++ c :: after
        /\ Forall passed_over before /\ let_through c.
Proof.
  induction components as [|x rest IH]; simpl.
  - split; [discriminate|]. intros (before & after & Hsplit & _).
    now destruct before.
  - destruct (item x "is_base_price") as [flag | e] eqn:Hflag; simpl.
    + destruct (truthy flag) eqn:Htest.
      * split.
        -- intros Hfound. inversion Hfound; subst.
           exists [], rest. repeat split; [constructor | now exists flag].
        -- intros (before & after & Hsplit & Hbefore & Hc).
           destruct before as [|b before]; simpl in Hsplit; inversion Hsplit; subst.
           ++ reflexivity.
           ++ inversion Hbefore as [|? ? (flag' & Hflag' & Htest') _]; subst.
              congruence.
      * rewrite IH. split.
        -- intros (before & after & -> & Hbefore & Hc).
           exists (x :: before), after. repeat split; [|exact Hc].
           constructor; [now exists flag | exact Hbefore].
        -- intros (before & after & Hsplit & Hbefore & Hc).
           destruct before as [|b before]; simpl in Hsplit; inversion Hsplit; subst.
           ++ destruct Hc as (flag' & Hflag' & Htest'). congruence.
           ++ exists before, after. repeat split; [|exact Hc].
              now inversion Hbefore.
    + split; [discriminate|].
      intros (before & after & Hsplit & Hbefore & Hc).
      destruct before as [|b before]; simpl in Hsplit; inversion Hsplit; subst.
      * destruct Hc as (flag' & Hflag' & _). congruence.
      * inversion Hbefore as [|? ? (flag' & Hflag' & _) _]; subst. congruence.
Qed.

Lemma next_filter_exhausted (components : list json) :
  next_filter flag_test components = Raise StopIteration
  <-> Forall passed_over components.
Proof.
  induction components as [|x rest IH]; simpl.
  - split; [constructor | reflexivity].
  - pose proof (item_never_stops x "is_base_price") as Hnever.
    destruct (item x "is_base_price") as [flag | e] eqn:Hflag; simpl.
    + destruct (truthy flag) eqn:Htest.
      * split; [discriminate|]. intros Hall.
        inversion Hall as [|? ? (flag' & Hflag' & Htest') _]; subst. congruence.
      * rewrite IH. split.
        -- intros Hrest. constructor; [now exists flag | exact Hrest].
        -- intros Hall. now inversion Hall.
    + split; [congruence|]. intros Hall.
      inversion Hall as [|? ? (flag' & Hflag' & _) _]; subst. congruence.
Qed.

(** X14. The base price lookup, case by case, on a list of components. It
    returns a price exactly when some component passes the [is_base_price]
    test, every component before it carries the entry and fails the test,
    and that first passing component has a [price] entry: the price returned
    is that entry, never one of a later or of an unflagged component. The
    test is Python's truth test, so a flag of [1] or of a non-empty string
    counts as set. It raises [StopIteration] exactly when every component
    carries the entry and fails the test. *)
Theorem base_price_cases (components : list json) :
  (forall price,
      base_price_of_components (JArr components) = Ok price
      <-> exists before chosen after,
            components = before ++ chosen :: after
            /\ Forall passed_over before
            /\ let_through chosen
            /\ item chosen "price" = Ok price)
  /\ (base_price_of_components (JArr components) = Raise StopIteration
      <-> Forall passed_over components).
Proof.
  unfold base_price_of_components. simpl. split.
  - intros price. split.
    + destruct (next_filter flag_test components) as [c | e] eqn:Hnext; simpl;
        [|discriminate].
      intros Hprice. apply next_filter_found in Hnext.
      destruct Hnext as (before & after & Hsplit & Hbefore & Hc).
      exists before, c, after. auto.
    + intros (before & c & after & Hsplit & Hbefore & Hc & Hprice).
      assert (Hnext : next_filter flag_test components = Ok c).
      { apply next_filter_found. exists before, after. auto. }
      rewrite Hnext. simpl. exact Hprice.
  - rewrite <- next_filter_exhausted.
    destruct (next_filter flag_test components) as [c | e]; simpl.
    + split; [|discriminate]. intros Hprice. now apply item_never_stops in Hprice.
    + reflexivity.
Qed.

End BasePriceCases.

(** ** The impact command of the shell *)

Section ImpactCommand.

Context `{Remote}.

Lemma years_stamped (y : Z) :
  1 <= y <= 9999 -> zfill 4 (pretty y) = string_of_list_ascii (four_digits y).
Proof.
  intros Hy.
  assert (Hchecked : years_checked = true) by (vm_compute; reflexivity).
  unfold years_checked in Hchecked. rewrite forallb_forall in Hchecked.
  specialize (Hchecked (Z.to_nat y)).
  rewrite Z2Nat.id in Hchecked by lia. cbv zeta in Hchecked.
  apply String.eqb_eq, Hchecked, in_seq. lia.
Qed.

Lemma months_and_days_stamped (m d : Z) :
  1 <= m <= 12 -> 1 <= d <= 31 ->
  (exists gm gd,
      head (month_and_day (list_ascii_of_string (month_day_stamp m d)))
      = Some (gm, gd, []) /\ int gm = m /\ int gd = d)
  /\ forallb (fun c => negb (is_char " " c))
       (list_ascii_of_string (month_day_stamp m d)) = true.
Proof.
  intros Hm Hd.
  assert (Hchecked : months_and_days_checked = true) by (vm_compute; reflexivity).
  unfold months_and_days_checked in Hchecked. rewrite forallb_forall in Hchecked.
  specialize (Hchecked (Z.to_nat m)). rewrite forallb_forall in Hchecked.
  assert (Hin : In (Z.to_nat m) (seq 1 12)) by (apply in_seq; lia).
  specialize (Hchecked Hin (Z.to_nat d)).
  rewrite !Z2Nat.id in Hchecked by lia. cbv zeta in Hchecked.
  assert (Hin' : In (Z.to_nat d) (seq 1 31)) by (apply in_seq; lia).
  specialize (Hchecked Hin'). apply andb_true_iff in Hchecked.
  destruct Hchecked as [Hread Hspaces]. split; [|exact Hspaces].
  destruct (head (month_and_day (list_ascii_of_string (month_day_stamp m d))))
    as [[[gm gd] [|c rest]]|]; try discriminate.
  apply andb_true_iff in Hread. destruct Hread as [Hgm Hgd].
  apply Z.eqb_eq in Hgm, Hgd. eauto.
Qed.

Lemma digit_is_digit (n : Z) :
  0 <= n <= 9 ->
  is_digit (digit n) = true /\ digit_value (digit n) = n
  /\ is_char " " (digit n) = false.
Proof.
  intros Hn. destruct n as [|p|p]; [repeat split | | lia].
  do 4 (try destruct p as [p|p|]); try lia; repeat split.
Qed.

Lemma year_digits (y : Z) :
  0 <= y <= 9999 ->
  0 <= y / 1000 <= 9 /\ 0 <= y / 100 mod 10 <= 9
  /\ 0 <= y / 10 mod 10 <= 9 /\ 0 <= y mod 10 <= 9
  /\ 1000 * (y / 1000) + 100 * (y / 100 mod 10) + 10 * (y / 10 mod 10) + y mod 10 = y.
Proof.
  intros Hy.
  assert (E1 : y / 1000 = y / 100 / 10) by (rewrite Z.div_div by lia; reflexivity).
  assert (E2 : y / 100 = y / 10 / 10) by (rewrite Z.div_div by lia; reflexivity).
  pose proof (Z.div_mod (y / 100) 10 ltac:(lia)) as H1.
  pose proof (Z.div_mod (y / 10) 10 ltac:(lia)) as H2.
  pose proof (Z.div_mod y 10 ltac:(lia)) as H3.
  pose proof (Z.mod_pos_bound (y / 100) 10 ltac:(lia)).
  pose proof (Z.mod_pos_bound (y / 10) 10 ltac:(lia)).
  pose proof (Z.mod_pos_bound y 10 ltac:(lia)).
  assert (0 <= y / 1000 <= 9).
  { split; [apply Z.div_pos; lia |]. assert (y / 1000 < 10) by (apply Z.div_lt_upper_bound; lia). lia. }
  rewrite <- E1 in H1. rewrite <- E2 in H2.
  lia.
Qed.

Lemma year_read_back (y : Z) (rest : list ascii) :
  0 <= y <= 9999 ->
  regex_Y (four_digits y ++ rest) = [(four_digits y, rest)]
  /\ int (four_digits y) = y
  /\ forallb (fun c => negb (is_char " " c)) (four_digits y) = true.
Proof.
  intros Hy.
  destruct (year_digits y Hy) as (Ha & Hb & Hc & Hd & Hsum).
  destruct (digit_is_digit _ Ha) as (Ha1 & Ha2 & Ha3).
  destruct (digit_is_digit _ Hb) as (Hb1 & Hb2 & Hb3).
  destruct (digit_is_digit _ Hc) as (Hc1 & Hc2 & Hc3).
  destruct (digit_is_digit _ Hd) as (Hd1 & Hd2 & Hd3).
  unfold four_digits. cbn [app regex_Y forallb].
  rewrite Ha1, Hb1, Hc1, Hd1, Ha3, Hb3, Hc3, Hd3. repeat split.
  unfold int. cbn [lstrip]. rewrite Ha3. cbn [fold_left].
  rewrite Ha2, Hb2, Hc2, Hd2. lia.
Qed.

Lemma list_ascii_of_string_app (a b : string) :
  list_ascii_of_string (a +:+ b) = list_ascii_of_string a ++ list_ascii_of_string b.
Proof. induction a as [|c a IH]; simpl; [reflexivity | now rewrite IH]. Qed.

Lemma isoformat_stamp (dt : date) :
  valid dt = true ->
  list_ascii_of_string (isoformat dt)
  = four_digits (year dt) ++ list_ascii_of_string (month_day_stamp (month dt) (day dt)).
Proof.
  intros Hv. apply valid_ymd_spec in Hv. destruct Hv as (Hy & _).
  unfold isoformat, month_day_stamp.
  rewrite list_ascii_of_string_app, years_stamped by exact Hy.
  now rewrite list_ascii_of_string_of_list_ascii.
Qed.

Lemma mdays_at_most_31 (m : Z) : mdays m <= 31.
Proof.
  destruct m as [|p|p]; simpl; try lia.
  do 4 (try destruct p as [p|p|]; simpl; try lia).
Qed.

Lemma day_at_most_31 (y m d : Z) : d <= days_in_month y m -> d <= 31.
Proof.
  unfold days_in_month. intros Hd. pose proof (mdays_at_most_31 m).
  destruct (m =? 2) eqn:Hm; simpl in Hd; [|lia].
  apply Z.eqb_eq in Hm. subst m. destruct (isleap y); simpl in Hd; lia.
Qed.

(** The stamp of a date is read back as that date. *)
Lemma strptime_isoformat (dt : date) :
  valid dt = true -> strptime_date (isoformat dt) = Ok dt.
Proof.
  intros Hv. unfold strptime_date, regex_match.
  rewrite (isoformat_stamp dt Hv).
  pose proof Hv as Hrange. apply valid_ymd_spec in Hrange.
  destruct Hrange as (Hy & Hm & Hd).
  assert (Hd' : 1 <= day dt <= 31) by (split; [lia | eapply day_at_most_31, Hd]).
  destruct (year_read_back (year dt)
              (list_ascii_of_string (month_day_stamp (month dt) (day dt))))
    as (Hyear & Hint & _); [lia|].
  rewrite Hyear.
  destruct (months_and_days_stamped _ _ Hm Hd') as [(gm & gd & Hread & Hgm & Hgd) _].
  cbn [mbind list_bind app]. rewrite app_nil_r.
  destruct (month_and_day (list_ascii_of_string (month_day_stamp (month dt) (day dt))))
    as [|[[gm' gd'] rest'] others]; [discriminate|].
  simpl in Hread. inversion Hread; subst gm' gd' rest'. simpl.
  rewrite Hint, Hgm, Hgd. unfold make_date. unfold valid in Hv. rewrite Hv.
  now destruct dt.
Qed.

Lemma isoformat_no_space (dt : date) :
  valid dt = true ->
  forallb (fun c => negb (is_char " " c)) (list_ascii_of_string (isoformat dt)) = true.
Proof.
  intros Hv. rewrite (isoformat_stamp dt Hv), forallb_app.
  pose proof Hv as Hrange. apply valid_ymd_spec in Hrange.
  destruct Hrange as (Hy & Hm & Hd).
  assert (Hd' : 1 <= day dt <= 31) by (split; [lia | eapply day_at_most_31, Hd]).
  destruct (year_read_back (year dt) []) as (_ & _ & Hyear); [lia|].
  destruct (months_and_days_stamped _ _ Hm Hd') as [_ Htail].
  now rewrite Hyear, Htail.
Qed.

Lemma split_whole (s : string) :
  forallb (fun c => negb (is_char " " c)) (list_ascii_of_string s) = true ->
  split " " s = [s].
Proof.
  induction s as [|c s IH]; simpl; [reflexivity|].
  intros Hnone. apply andb_true_iff in Hnone. destruct Hnone as [Hc Hs].
  unfold is_char in Hc. apply negb_true_iff in Hc. rewrite Hc.
  now rewrite (IH Hs).
Qed.

Lemma split_at_space (a b : string) :
  forallb (fun c => negb (is_char " " c)) (list_ascii_of_string a) = true ->
  split " " (a +:+ " " +:+ b) = a :: split " " b.
Proof.
  induction a as [|c a IH]; simpl; [reflexivity|].
  intros Hnone. apply andb_true_iff in Hnone. destruct Hnone as [Hc Ha].
  unfold is_char in Hc. apply negb_true_iff in Hc. rewrite Hc.
  now rewrite (IH Ha).
Qed.

Lemma split_length (s : string) :
  List.length (split " " s) = S (spaces s).
Proof.
  unfold spaces. induction s as [|c s IH]; simpl; [reflexivity|].
  unfold is_char at 1. destruct (Ascii.eqb c " "); simpl.
  - now rewrite IH.
  - destruct (split " " s) as [|piece pieces]; simpl in *; [discriminate | exact IH].
Qed.

(** X15. The impact command on a line that does not hold exactly one space
    (no argument, one word, three words, two spaces in a row, a space at
    either end) prints the usage line and does nothing else: no request is
    sent, nothing is fetched or cached. *)
Theorem impact_command_wants_two_words (input : string) (w : world) :
  spaces input <> 1%nat ->
  do_calculate_the_impact_of_usage_between_dates (Some input) w
  = (Ok (Line USAGE), w).
Proof.
  intros Hspaces.
  unfold do_calculate_the_impact_of_usage_between_dates, impact_of_input, wbind, lift.
  pose proof (split_length input) as Hlength.
  destruct (split " " input) as [|a [|b [|c pieces]]]; simpl in *;
    try reflexivity.
  congruence.
Qed.

(** X16. The impact command on two dates written as [date] prints them
    ([YYYY-MM-DD]), one space between: the client is asked for the impact
    between exactly those dates; the command prints the figure when the
    client returns one, prints the usage line when the client raises a
    [ValueError], and lets any other exception of the client through. *)
Theorem impact_command_on_dates (start_date end_date : date) (w : world) :
  valid start_date = true ->
  valid end_date = true ->
  do_calculate_the_impact_of_usage_between_dates
    (Some (isoformat start_date +:+ " " +:+ isoformat end_date)) w
  = match calculate_impact_of_usage_between_dates start_date end_date w with
    | (Ok impact, w') => (Ok (Number impact), w')
    | (Raise ValueError, w') => (Ok (Line USAGE), w')
    | (Raise e, w') => (Raise e, w')
    end.
Proof.
  intros Hstart Hend.
  unfold do_calculate_the_impact_of_usage_between_dates, impact_of_input.
  rewrite split_at_space by now apply isoformat_no_space.
  rewrite split_whole by now apply isoformat_no_space.
  unfold wbind at 1, lift at 1. cbn [unpack_pair].
  unfold wbind at 1, lift at 1. rewrite (strptime_isoformat _ Hstart).
  unfold wbind at 1, lift at 1. rewrite (strptime_isoformat _ Hend).
  reflexivity.
Qed.

End ImpactCommand.

(** ** What a full cache forgets *)

Section FullStore.

Context {K V : Type} `{EqDecision K}.

Import TTLCache.

Local Abbreviation item := (TTLCache.link K V).
Local Abbreviation keys := (map (@link_key K V)).







End FullStore.

Section Eviction.

Context `{Remote}.


End Eviction.

Lemma impact_command_wants_two_words_witness :
  @do_calculate_the_impact_of_usage_between_dates Scenario.remote
    (Some "2022-12-01"%string) Scenario.logged_in
  = (Ok (Line USAGE), Scenario.logged_in).
Proof.
  apply (@impact_command_wants_two_words Scenario.remote "2022-12-01"
           Scenario.logged_in).
  vm_compute. lia.
Defined.

Lemma impact_command_on_dates_witness :
  let start_date := {| year := 2022; month := 12; day := 1 |} in
  let end_date := {| year := 2022; month := 12; day := 31 |} in
  @do_calculate_the_impact_of_usage_between_dates Scenario.remote
    (Some (isoformat start_date +:+ " " +:+ isoformat end_date)) Scenario.logged_in
  = match @calculate_impact_of_usage_between_dates Scenario.remote
            start_date end_date Scenario.logged_in with
    | (Ok impact, w') => (Ok (Number impact), w')
    | (Raise ValueError, w') => (Ok (Line USAGE), w')
    | (Raise e, w') => (Raise e, w')
    end.
Proof.
  cbv zeta.
  apply (@impact_command_on_dates Scenario.remote
           {| year := 2022; month := 12; day := 1 |}
           {| year := 2022; month := 12; day := 31 |} Scenario.logged_in);
    reflexivity.
Defined.


Lemma repeated_call_hits_witness :
  let w1 := snd (@fetch Scenario.remote DailyByMonth [AInt 11] Scenario.logged_in) in
  exists w2,
    @fetch Scenario.remote DailyByMonth [AInt 11] w1
    = (Ok (Measurements Scenario.hourly), w2)
    /\ requests w2 = requests w1 /\ monotonic w2 = monotonic w1.
Proof.
  intros w1.
  apply (@repeated_call_hits Scenario.remote DailyByMonth [AInt 11]
           Scenario.logged_in w1 (Measurements Scenario.hourly)).
  reflexivity.
Defined.
